(** * espack (bundless): path codec, dev request handler, HMR channel,
      pre-bundle analysis

    A shallow embedding of
      - [src/bundless/src/utils/convertors.ts]: [importPathToFile] and
        [fileToImportPath];
      - [src/bundless/src/prebundle/esbuild.ts], lines 191-224:
        [metafileToAnalysis];
      - the same file, lines 349-598, the server [createApp]: [onResolved]
        (lines 364-397), [pluginsMiddleware] (lines 449-514) and
        [hmrMiddleware] (lines 515-571),
    together with the parts of Node's [path] module, of the JavaScript
    string library and of the event emitters that this code calls.

    JavaScript strings are lists of characters; objects used as
    dictionaries are finite maps of their own properties, written and
    read as plain objects are; code that throws returns a sum or an
    option; code that mutates shared state passes that state explicitly. *)

From Stdlib Require Import Ascii String List Lia.
From stdpp Require Import base gmap sets list strings.

#[local] Set Warnings "-clear-no-such-hyp".

Open Scope char_scope.

(** ** JavaScript strings *)

Abbreviation str := (list ascii).

(** A string literal of the source. *)
Definition js (s : string) : str := list_ascii_of_string s.

Module JsString.

(** [s.startsWith(p)] *)
Fixpoint startsWith (s p : str) {struct p} : bool :=
  match p, s with
  | [], _ => true
  | _ :: _, [] => false
  | a :: p', b :: s' => bool_decide (b = a) && startsWith s' p'
  end.

(** [s.endsWith(p)] *)
Definition endsWith (s p : str) : bool :=
  startsWith (rev s) (rev p).

(** [s.includes(p)] *)
Fixpoint includes (s p : str) : bool :=
  startsWith s p ||
  match s with
  | [] => false
  | _ :: s' => includes s' p
  end.

(** [s.split(c)] for a one-character separator [c]: never empty, the
    empty string gives one empty piece. *)
Fixpoint split (c : ascii) (s : str) : list str :=
  match s with
  | [] => [[]]
  | a :: s' =>
      if bool_decide (a = c) then [] :: split c s'
      else match split c s' with
           | [] => [[a]]
           | h :: r => (a :: h) :: r
           end
  end.

(** [l.join(c)] *)
Fixpoint join (c : ascii) (l : list str) : str :=
  match l with
  | [] => []
  | [x] => x
  | x :: r => x ++ c :: join c r
  end.

(** [s.replace(/\.\./g, '...')]: leftmost matches, not overlapping. *)
Fixpoint replace_dotdot (s : str) : str :=
  match s with
  | a :: ((b :: t) as s') =>
      if bool_decide (a = ".") && bool_decide (b = ".")
      then "." :: "." :: "." :: replace_dotdot t
      else a :: replace_dotdot s'
  | _ => s
  end.

(** [s.replace(/\.\.\./g, '..')] *)
Fixpoint replace_dotdotdot (s : str) : str :=
  match s with
  | a :: ((b :: ((c :: t) as s'')) as s') =>
      if bool_decide (a = ".") && bool_decide (b = ".") && bool_decide (c = ".")
      then "." :: "." :: replace_dotdotdot t
      else a :: replace_dotdotdot s'
  | a :: s' => a :: replace_dotdotdot s'
  | [] => []
  end.

Definition backslash : ascii := "092".

(** [/[^\u0000-\u0080]+/.test(s)]: the string has a character above
    U+0080. A string is held as the octets of its UTF-8 form: an octet
    below 128 is a character of its own, the octets 194 128 are U+0080,
    and any other octet from 128 on belongs to a character above
    U+0080. *)
Fixpoint hasNonAscii (s : str) : bool :=
  match s with
  | [] => false
  | a :: s' =>
      if (N_of_ascii a <? 128)%N then hasNonAscii s'
      else
        match s' with
        | b :: s'' =>
            if (N_of_ascii a =? 194)%N && (N_of_ascii b =? 128)%N
            then hasNonAscii s''
            else true
        | [] => true
        end
  end.

(** [slash(s)] of the npm package of that name: an extended-length
    Windows path (one that starts with two backslashes, a question mark
    and a backslash) and a string with a character above U+0080 are
    returned as they are, in any other string every backslash becomes a
    forward slash. *)
Definition slash (s : str) : str :=
  let isExtendedLengthPath :=
    startsWith s [backslash; backslash; "?"; backslash] in
  if isExtendedLengthPath || hasNonAscii s then s
  else map (fun a => if bool_decide (a = backslash) then "/" else a) s.

End JsString.

(** ** Node's [path] module, POSIX flavour

    Paths are read as lists of segments between ['/']. [resolve] and
    [relative] take the process working directory as their first
    argument. *)

Module Path.
Import JsString.

Definition dot : str := js ".".
Definition dotdot : str := js "..".

(** One segment of [normalizeString]: empty and ['.'] segments are
    dropped; ['..'] removes the last kept segment unless there is none or
    it is itself ['..'], in which case ['..'] is kept when
    [allowAboveRoot] and dropped otherwise. [res] is the list of kept
    segments, last one first. *)
Definition normalize_step (allowAboveRoot : bool) (res : list str) (seg : str)
  : list str :=
  if bool_decide (seg = []) || bool_decide (seg = dot) then res
  else if bool_decide (seg = dotdot) then
    match res with
    | top :: rest =>
        if bool_decide (top = dotdot)
        then (if allowAboveRoot then dotdot :: res else res)
        else rest
    | [] => if allowAboveRoot then [dotdot] else []
    end
  else seg :: res.

Definition normalize_segments (allowAboveRoot : bool) (segs : list str)
  : list str :=
  rev (fold_left (normalize_step allowAboveRoot) segs []).

(** [normalizeString(path, allowAboveRoot, '/', isPosixPathSeparator)] *)
Definition normalizeString (path : str) (allowAboveRoot : bool) : str :=
  join "/" (normalize_segments allowAboveRoot (split "/" path)).

Definition isAbsolute (p : str) : bool := startsWith p (js "/").

(** The loop of [path.resolve]: arguments are taken last to first, then
    the working directory, until an absolute one is met; empty ones are
    skipped. Returns [resolvedAbsolute] and [resolvedPath]. *)
Fixpoint resolve_loop (paths : list str) (resolvedPath : str) : bool * str :=
  match paths with
  | [] => (false, resolvedPath)
  | p :: rest =>
      if bool_decide (p = []) then resolve_loop rest resolvedPath
      else
        let resolvedPath' := p ++ "/" :: resolvedPath in
        if isAbsolute p then (true, resolvedPath')
        else resolve_loop rest resolvedPath'
  end.

(** [path.resolve(...args)] *)
Definition resolve (cwd : str) (args : list str) : str :=
  let '(resolvedAbsolute, resolvedPath) := resolve_loop (rev args ++ [cwd]) [] in
  let n := normalizeString resolvedPath (negb resolvedAbsolute) in
  if resolvedAbsolute then "/" :: n
  else if bool_decide (n = []) then dot else n.

(** The segments of a path: its non-empty pieces between ['/']. *)
Definition segments (p : str) : list str :=
  filter (fun seg => seg <> []) (split "/" p).

(** Drops the longest common prefix of two segment lists. *)
Fixpoint strip_common (from to : list str) : list str * list str :=
  match from, to with
  | f :: from', t :: to' =>
      if bool_decide (f = t) then strip_common from' to' else (from, to)
  | _, _ => (from, to)
  end.

(** [path.relative(from, to)]: both paths are resolved; one ['..'] is
    emitted for every segment of [from] below the longest common
    ancestor, followed by the segments of [to] below it. *)
Definition relative (cwd from to : str) : str :=
  if bool_decide (from = to) then []
  else
    let from' := resolve cwd [from] in
    let to' := resolve cwd [to] in
    if bool_decide (from' = to') then []
    else
      let '(up, down) := strip_common (segments from') (segments to') in
      join "/" (map (fun _ => dotdot) up ++ down).

(** [path.basename(p)]: the last non-empty segment, or the empty string. *)
Definition basename (p : str) : str :=
  default [] (last (segments p)).

(** *** Notions used to state the properties of the codec *)

(** A segment of a normalized path: a name, not empty, not ['.'], not
    ['..'], without ['/']. *)
Definition normal_seg (s : str) : Prop :=
  s <> [] /\ s <> dot /\ s <> dotdot /\ "/" ∉ s.

(** The segments that [path.resolve] keeps of an absolute path. *)
Definition norm (p : str) : list str :=
  normalize_segments false (split "/" p).

(** The text of the absolute path with the given segments. *)
Definition abs_path (segs : list str) : str := "/" :: join "/" segs.

(** The segments of the relative path from [root] to [p]: one ['..'] for
    each segment of [root] below the common ancestor, then the segments
    of [p] below it. *)
Definition relative_segments (root p : str) : list str :=
  map (fun _ => dotdot) (strip_common (norm root) (norm p)).1
  ++ (strip_common (norm root) (norm p)).2.

End Path.

(** ** [src/bundless/src/utils/convertors.ts] *)

Module Convertors.
Import JsString.

(** [export const dotdotEncoding = '...'] *)
Definition dotdotEncoding : str := js "...".

Definition hex_digit (c : ascii) : option N :=
  let n := N_of_ascii c in
  if (48 <=? n)%N && (n <=? 57)%N then Some (n - 48)%N
  else if (65 <=? n)%N && (n <=? 70)%N then Some (n - 55)%N
  else if (97 <=? n)%N && (n <=? 102)%N then Some (n - 87)%N
  else None.

(** The number of continuation octets announced by the first octet of a
    multi-octet UTF-8 sequence; [None] for a stray continuation octet and
    for more than four leading one bits. *)
Definition utf8_continuations (b : N) : option nat :=
  if (b <? 192)%N then None
  else if (b <? 224)%N then Some 1
  else if (b <? 240)%N then Some 2
  else if (b <? 248)%N then Some 3
  else None.

Definition is_continuation (b : N) : bool := (128 <=? b)%N && (b <? 192)%N.

(** The octets are the UTF-8 encoding of one code point: shortest form,
    no surrogate, at most U+10FFFF. *)
Definition utf8_valid (octets : list N) : bool :=
  match octets with
  | [b0; _] => (194 <=? b0)%N
  | [b0; b1; _] =>
      if (b0 =? 224)%N then (160 <=? b1)%N
      else if (b0 =? 237)%N then (b1 <? 160)%N
      else true
  | [b0; b1; _; _] =>
      if (b0 =? 240)%N then (144 <=? b1)%N
      else if (b0 =? 244)%N then (b1 <? 144)%N
      else (b0 <? 244)%N
  | _ => false
  end.

(** The [Decode] operation behind [decodeURIComponent], on strings held
    as octets. [pending] and [need] are the octets read so far of a
    multi-octet escape and the number still expected. [None] is the
    [URIError] thrown on a malformed escape. *)
Fixpoint decode_from (pending : list N) (need : nat) (s : str) : option str :=
  match s with
  | [] => match need with 0 => Some [] | S _ => None end
  | c :: s1 =>
      if bool_decide (c = "%") then
        match s1 with
        | h :: l :: rest =>
            match hex_digit h, hex_digit l with
            | Some a, Some b =>
                let B := (16 * a + b)%N in
                match need with
                | 0 =>
                    if (B <? 128)%N
                    then cons (ascii_of_N B) <$> decode_from [] 0 rest
                    else match utf8_continuations B with
                         | Some k => decode_from [B] k rest
                         | None => None
                         end
                | S need' =>
                    if is_continuation B then
                      let pending' := pending ++ [B] in
                      match need' with
                      | 0 =>
                          if utf8_valid pending'
                          then app (map ascii_of_N pending') <$> decode_from [] 0 rest
                          else None
                      | S _ => decode_from pending' need' rest
                      end
                    else None
                end
            | _, _ => None
            end
        | _ => None
        end
      else
        match need with
        | 0 => cons c <$> decode_from [] 0 s1
        | S _ => None
        end
  end.

(** [decodeURIComponent(s)] *)
Definition decodeURIComponent (s : str) : option str := decode_from [] 0 s.

(** Modelled from the spec: [cleanUrl] of [src/utils/utils.ts], which is
    not among the sources; the spec says of the decoder that it will
    "strip query/hash". The string is cut at its first ['?'] or ['#']. *)
Fixpoint cleanUrl (url : str) : str :=
  match url with
  | [] => []
  | c :: t =>
      if bool_decide (c = "?") || bool_decide (c = "#") then []
      else c :: cleanUrl t
  end.

(** [importPathToFile(root, request)]; [None] when [decodeURIComponent]
    throws. *)
Definition importPathToFile (cwd root request : str) : option str :=
  request ← decodeURIComponent request;
  let request := cleanUrl request in
  let request := if startsWith request (js "/") then drop 1 request else request in
  let request := Path.resolve cwd [root; request] in
  let request := replace_dotdotdot request in
  Some request.

(** [fileToImportPath(root, filePath)] *)
Definition fileToImportPath (cwd root filePath : str) : str :=
  let filePath := Path.resolve cwd [root; filePath] in
  let filePath := Path.relative cwd root filePath in
  let filePath := replace_dotdot filePath in
  let filePath := "/" :: filePath in
  filePath.

End Convertors.

(** ** Exceptions *)

(** The result of code that may throw [new Error(message)]. *)
Inductive Result (A : Type) : Type :=
| Ok (value : A)
| Thrown (message : str).
Arguments Ok {A} value.
Arguments Thrown {A} message.

Definition bind_result {A B} (r : Result A) (k : A -> Result B) : Result B :=
  match r with
  | Ok a => k a
  | Thrown m => Thrown m
  end.

(** [l.map(f)] for an [f] that may throw: the first exception ends the
    traversal. *)
Fixpoint map_result {A B} (f : A -> Result B) (l : list A) : Result (list B) :=
  match l with
  | [] => Ok []
  | a :: l' =>
      bind_result (f a) (fun b =>
      bind_result (map_result f l') (fun bs => Ok (b :: bs)))
  end.

(** ** Plain objects used as dictionaries

    An object created by [{}] is held as the finite map of its own
    properties; its prototype is [Object.prototype]. *)

(** The one name that an assignment [obj[key] = value] does not file:
    [Object.prototype] has a setter of this name, which the assignment
    runs; it replaces the prototype of [obj] when [value] is an object
    and does nothing otherwise, and [obj] gets no property either way. *)
Definition proto_name : str := js "__proto__".

(** [obj[key] = value] on the own properties of a plain object. *)
Definition Object_set {V} (obj : gmap str V) (key : str) (value : V) : gmap str V :=
  if bool_decide (key = proto_name) then obj else <[key := value]> obj.

(** [fromEntries(entries)] of the npm package [fromentries],
    [[...entries].reduce((obj, [key, val]) => { obj[key] = val; return obj }, {})]:
    the entries are assigned in order, a later entry overwrites an
    earlier one with the same key. *)
Definition fromEntries {V} (entries : list (str * V)) : gmap str V :=
  fold_left (fun obj kv => Object_set obj kv.1 kv.2) entries ∅.

(** The names of the properties of [Object.prototype]. *)
Definition prototype_names : list str :=
  [js "constructor"; js "__defineGetter__"; js "__defineSetter__";
   js "hasOwnProperty"; js "__lookupGetter__"; js "__lookupSetter__";
   js "isPrototypeOf"; js "propertyIsEnumerable"; js "toString";
   js "valueOf"; js "__proto__"; js "toLocaleString"].

(** What reading a property of a dictionary of strings gives: a string,
    or the member of [Object.prototype] of the name read (a function,
    and for [__proto__] the prototype itself). *)
Inductive JsValue : Type :=
| Str (s : str)
| Inherited (name : str).

(** [obj[key]]: the own property if there is one, else the property
    inherited from [Object.prototype], else [undefined]. *)
Definition Object_get (obj : gmap str str) (key : str) : option JsValue :=
  match obj !! key with
  | Some value => Some (Str value)
  | None =>
      if bool_decide (key ∈ prototype_names) then Some (Inherited key)
      else None
  end.

(** [Object.keys(o)] of an object used as a dictionary. The order of the
    keys is the map's, not JavaScript's insertion order; nothing below
    depends on it. *)
Definition Object_keys {V} (o : gmap str V) : list str :=
  (map_to_list o).*1.

(** ** [src/bundless/src/prebundle/esbuild.ts], lines 191-224 *)

Module Esbuild.
Import JsString.

(** The fields of an entry of [meta.outputs] that the analysis reads. *)
Record OutputInfo : Type := {
  bytes : N;
  inputs : gmap str N;
  exports : option (list str);
}.

Record Metadata : Type := {
  outputs : gmap str OutputInfo;
}.

(** [OptimizeAnalysisResult] *)
Record OptimizeAnalysisResult : Type := {
  isCommonjs : gmap str bool;
}.

Section Analysis.
(** [osAgnosticPath(absPath, root)] of [src/prebundle/support.ts], which
    is not among the sources: the key under which an output is filed. *)
Variable osAgnosticPath : str -> str -> str.
(** The working directory of the process. *)
Variable cwd : str.

(** [info.exports?.length === 1 && info.exports?.[0] === 'default'] *)
Definition exports_only_default (info : OutputInfo) : bool :=
  match exports info with
  | Some [e] => bool_decide (e = js "default")
  | _ => false
  end.

(** The callback given to [.map] in [metafileToAnalysis]: [Ok None] is
    its [return] without a value. *)
Definition analysis_entry (meta : Metadata) (root esbuildCwd output : str)
  : Result (option (str * bool)) :=
  if startsWith (Path.basename output) (js "chunk.") then Ok None
  else
    match outputs meta !! output with
    | None => Thrown (js "cannot find output info for " ++ output)
    | Some info =>
        let isCommonjs := exports_only_default info in
        if negb isCommonjs then Ok None
        else Ok (Some (osAgnosticPath (Path.resolve cwd [esbuildCwd; output]) root,
                       isCommonjs))
    end.

(** [metafileToAnalysis({ meta, root, esbuildCwd })] *)
Definition metafileToAnalysis (meta : Metadata) (root esbuildCwd : str)
  : Result OptimizeAnalysisResult :=
  bind_result
    (map_result (analysis_entry meta root esbuildCwd) (Object_keys (outputs meta)))
    (fun entries =>
       Ok {| isCommonjs := fromEntries (omap id entries) |}).

(** The entry that [analysis_entry] computes for an output held by
    [meta.outputs], where it does not throw. *)
Definition entry_of (meta : Metadata) (root esbuildCwd output : str)
  : option (str * bool) :=
  if startsWith (Path.basename output) (js "chunk.") then None
  else match outputs meta !! output with
       | Some info =>
           if exports_only_default info
           then Some (osAgnosticPath (Path.resolve cwd [esbuildCwd; output]) root, true)
           else None
       | None => None
       end.

End Analysis.

(** *** A sample metafile

    An entry point that only exports [default], a shared chunk that does
    the same, and an entry point with named exports. *)

Definition sample_meta : Metadata :=
  {| outputs :=
       {[ js "web_modules/foo.js" :=
            {| bytes := 120; inputs := ∅; exports := Some [js "default"] |};
          js "web_modules/chunk.AB12.js" :=
            {| bytes := 40; inputs := ∅; exports := Some [js "default"] |};
          js "web_modules/bar.js" :=
            {| bytes := 300; inputs := ∅; exports := Some [js "a"; js "b"] |} ]} |}.

(** A key for outputs: the path relative to the root, with forward
    slashes. *)
Definition relative_key (absPath root : str) : str :=
  JsString.slash (Path.relative (js "/") root absPath).

(** A metafile with two entry points that only export [default]; the
    output of one is the file [__proto__] of the root. *)
Definition proto_meta : Metadata :=
  {| outputs :=
       {[ js "__proto__" :=
            {| bytes := 120; inputs := ∅; exports := Some [js "default"] |};
          js "web_modules/foo.js" :=
            {| bytes := 120; inputs := ∅; exports := Some [js "default"] |} ]} |}.

End Esbuild.

(** ** The server: [createApp], lines 349-598 *)

Module Server.
Import JsString Convertors.

(** *** The module graph *)

(** Modelled from the spec: the [Graph] class of [src/graph.ts] is not
    among the sources. A node carries its edge sets and the two HMR flags
    that the server writes; the graph maps a path to its node. *)
Record Node : Type := {
  importers : gset str;
  importees : gset str;
  hasHmrAccept : bool;
  isHmrEnabled : bool;
}.

Definition newNode : Node :=
  {| importers := ∅; importees := ∅; hasHmrAccept := false; isHmrEnabled := false |}.

(** Modelled from the spec: [graph.ensureEntry(path)], the idempotent
    get-or-create of a node, never duplicated: the node filed under
    [path], created first when there is none. *)
Definition ensureEntry (nodes : gmap str Node) (path : str) : gmap str Node * Node :=
  match nodes !! path with
  | Some n => (nodes, n)
  | None => (<[path := newNode]> nodes, newNode)
  end.

(** *** Shared state of [createApp] *)

Record PrebundleArgs : Type := {
  entryPoints : list str;
  dest : str;
  pb_root : str;
}.

(** An object that emits events: the websocket server [wss], or one of
    the sockets it hands to its ['connection'] listeners. *)
Inductive Emitter : Type :=
| Wss
| Socket (id : nat).

#[global] Instance Emitter_eq_dec : EqDecision Emitter.
Proof. solve_decision. Defined.

(** The listeners that [hmrMiddleware] registers, named by the event
    they are written for. *)
Inductive Listener : Type :=
| ConnectionListener
| MessageListener
| ErrorListener.

(** A message of the server to a client. *)
Inductive HMRPayload : Type :=
| Connected.

(** A message of a client as [JSON.parse] returns it: the two fields
    that the server reads. *)
Record ClientPayload : Type := {
  type : str;
  path : str;
}.

Record State : Type := {
  nodes : gmap str Node;                      (* graph.nodes *)
  bundleMap : option (gmap str str);          (* let bundleMap: BundleMap | undefined *)
  watched : gset str;                         (* paths given to watcher.add *)
  prebundleCalls : list PrebundleArgs;        (* invocations of prebundle, oldest first *)
  listeners : list (Emitter * str * Listener); (* registered with .on, oldest first *)
  sent : list (nat * HMRPayload);             (* socket.send, oldest first *)
}.

Definition initial : State :=
  {| nodes := ∅; bundleMap := None; watched := ∅; prebundleCalls := [];
     listeners := []; sent := [] |}.

Definition set_nodes (f : gmap str Node -> gmap str Node) (st : State) : State :=
  {| nodes := f (nodes st); bundleMap := bundleMap st; watched := watched st;
     prebundleCalls := prebundleCalls st; listeners := listeners st; sent := sent st |}.
Definition set_bundleMap (b : option (gmap str str)) (st : State) : State :=
  {| nodes := nodes st; bundleMap := b; watched := watched st;
     prebundleCalls := prebundleCalls st; listeners := listeners st; sent := sent st |}.
Definition set_watched (f : gset str -> gset str) (st : State) : State :=
  {| nodes := nodes st; bundleMap := bundleMap st; watched := f (watched st);
     prebundleCalls := prebundleCalls st; listeners := listeners st; sent := sent st |}.
Definition add_prebundleCall (a : PrebundleArgs) (st : State) : State :=
  {| nodes := nodes st; bundleMap := bundleMap st; watched := watched st;
     prebundleCalls := prebundleCalls st ++ [a]; listeners := listeners st;
     sent := sent st |}.
Definition add_listener (e : Emitter) (event : str) (l : Listener) (st : State) : State :=
  {| nodes := nodes st; bundleMap := bundleMap st; watched := watched st;
     prebundleCalls := prebundleCalls st;
     listeners := listeners st ++ [(e, event, l)]; sent := sent st |}.
Definition add_sent (id : nat) (p : HMRPayload) (st : State) : State :=
  {| nodes := nodes st; bundleMap := bundleMap st; watched := watched st;
     prebundleCalls := prebundleCalls st; listeners := listeners st;
     sent := sent st ++ [(id, p)] |}.

(** A JavaScript value used as a condition: [undefined] and the empty
    string are false, a non-empty string and an object are true. *)
Definition truthy (v : option JsValue) : bool :=
  match v with
  | Some (Str (_ :: _)) => true
  | Some (Inherited _) => true
  | _ => false
  end.

Section CreateApp.
(** The working directory of the process and [config.root]. *)
Variables cwd root : str.

(** *** [NodeResolvePlugin({ onResolved })], lines 364-397 *)

(** Not among the sources: [isNodeModule] of [src/utils], the constant
    [WEB_MODULES_PATH], [prebundle] of [src/prebundle] (its promise is
    fulfilled with a bundle map or rejected with a reason, held as the
    string [`${e}`]) and [JSON.stringify(bundleMap, null, 4)]. *)
Variable isNodeModule : str -> bool.
Variable WEB_MODULES_PATH : str.
Variable prebundle : PrebundleArgs -> Result (gmap str str).
Variable JSON_stringify : gmap str str -> str.

(** Where a call of the asynchronous [onResolved] stands when it gives
    control back: settled, or suspended at
    [await prebundle({...})] with the invocation already made. *)
Inductive Pending : Type :=
| Settled (r : Result (option JsValue))
| AwaitingPrebundle (relativePath : str) (args : PrebundleArgs).

(** The argument of [prebundle]: every node of the graph is an entry
    point. *)
Definition prebundleArgs (st : State) : PrebundleArgs :=
  {| entryPoints :=
       map (fun x => Path.resolve cwd [root; x]) (Object_keys (nodes st));
     dest := Path.resolve cwd [root; WEB_MODULES_PATH];
     pb_root := root |}.

(** [bundleMap && bundleMap[relativePath]] *)
Definition bundled (st : State) (relativePath : str) : option JsValue :=
  match bundleMap st with
  | Some bm => Object_get bm relativePath
  | None => None
  end.

(** [onResolved(resolvedPath)] up to its [await]. *)
Definition onResolved_start (st : State) (resolvedPath : str) : State * Pending :=
  if negb (isNodeModule resolvedPath) then (st, Settled (Ok None))
  else
    let relativePath := slash (Path.relative cwd root resolvedPath) in
    if truthy (bundled st relativePath)
    then (st, Settled (Ok (bundled st relativePath)))
    else
      (* node module path not bundled, rerun bundling *)
      let args := prebundleArgs st in
      (add_prebundleCall args st, AwaitingPrebundle relativePath args).

(** [onResolved] from its [await] on, once the promise of [prebundle]
    is settled with [outcome]. *)
Definition onResolved_resume (st : State) (relativePath : str)
    (outcome : Result (gmap str str)) : State * Result (option JsValue) :=
  match outcome with
  | Thrown e => (st, Thrown (js "Cannot prebundle: " ++ e))
  | Ok bm =>
      let st' := set_bundleMap (Some bm) st in
      let webBundle := Object_get bm relativePath in
      if negb (truthy webBundle) then
        (st', Thrown (js "Bundle for '" ++ relativePath
                      ++ js "' was not generated in prebundling phase" ++ ["010"]
                      ++ JSON_stringify bm))
      else (st', Ok webBundle)
  end.

(** One call of [onResolved] that nothing interleaves with. *)
Definition onResolved (st : State) (resolvedPath : str)
  : State * Result (option JsValue) :=
  match onResolved_start st resolvedPath with
  | (st1, Settled r) => (st1, r)
  | (st1, AwaitingPrebundle relativePath args) =>
      onResolved_resume st1 relativePath (prebundle args)
  end.

(** Two calls of [onResolved], the second made while the first is
    suspended at its [await]: both run up to their [await], then each
    is resumed with the outcome of its own invocation. *)
Definition onResolved_concurrent (st : State) (path1 path2 : str)
  : State * option (Result (option JsValue))
    * option (Result (option JsValue)) :=
  let '(st1, p1) := onResolved_start st path1 in
  let '(st2, p2) := onResolved_start st1 path2 in
  let '(st3, r1) :=
    match p1 with
    | Settled r => (st2, Some r)
    | AwaitingPrebundle rel args =>
        let '(s, r) := onResolved_resume st2 rel (prebundle args) in (s, Some r)
    end in
  let '(st4, r2) :=
    match p2 with
    | Settled r => (st3, Some r)
    | AwaitingPrebundle rel args =>
        let '(s, r) := onResolved_resume st3 rel (prebundle args) in (s, Some r)
    end in
  (st4, r1, r2).

(** *** [pluginsMiddleware], lines 449-514 *)

(** What the handler reads of [ctx]: [ctx.path] and [ctx.req.headers]
    (header names in lower case). *)
Record Context : Type := {
  ctx_path : str;
  headers : gmap str str;
}.

Record Loaded : Type := {
  loaded_contents : option str;
  loader : str;
}.

Record Transformed (SourceMap : Type) : Type := {
  transformed_contents : str;
  transformed_map : option SourceMap;
}.
Arguments transformed_contents {SourceMap}.
Arguments transformed_map {SourceMap}.

(** [pluginExecutor.load], [pluginExecutor.transform] and
    [genSourceMapString] are not among the sources; [None] is their
    [null]. *)
Variable SourceMap : Type.
Variable load : str -> option Loaded.
Variable transform : str -> str -> str -> option (Transformed SourceMap).
Variable genSourceMapString : SourceMap -> str.

(** How the handler ends. *)
Inductive Outcome : Type :=
| Next                           (* return next() *)
| Throws (message : str)         (* throw new Error(message) *)
| ThrowsURIError                 (* thrown by decodeURIComponent *)
| Responds (body type : str).    (* ctx.body, ctx.type *)

(** The condition of the second [return next()], before its negation. *)
Definition esm_accept_context (ctx : Context) : bool :=
  bool_decide (headers ctx !! js "accept" = Some (js "*/*"))
  || bool_decide (headers ctx !! js "sec-fetch-dest" = Some (js "script"))
  || endsWith (ctx_path ctx) (js ".map").

Inductive Filter : Type :=
| PassedToNext
| Intercepted.

(** The two guards at the head of the handler, lines 455-470. *)
Definition filter_request (ctx : Context) : Filter :=
  if bool_decide (ctx_path ctx = js "/") then PassedToNext
  else if negb (esm_accept_context ctx) then PassedToNext
  else Intercepted.

Definition invalid_specifier_message (ctx : Context) : str :=
  js "All import paths should have been rewritten to absolute paths (start with /)"
  ++ ["010"]
  ++ js " make sure import paths for '" ++ ctx_path ctx
  ++ js "' are statically analyzable".

(** The handler from [if (ctx.path.startsWith('.'))] on, lines 472-512. *)
Definition serve_module (st : State) (ctx : Context) : State * Outcome :=
  if startsWith (ctx_path ctx) (js ".") then
    (st, Throws (invalid_specifier_message ctx))
  else
    match importPathToFile cwd root (ctx_path ctx) with
    | None => (st, ThrowsURIError)
    | Some filePath =>
        let st :=
          if startsWith (ctx_path ctx) ("/" :: dotdotEncoding)
             && negb (includes filePath (js "node_modules"))
          then set_watched (fun w => {[filePath]} ∪ w) st
          else st in
        match load filePath with
        | None => (st, Next)
        | Some loaded =>
            match loaded_contents loaded with
            | None => (st, Next)
            | Some contents =>
                match transform filePath (loader loaded) contents with
                | None => (st, Next)
                | Some transformed =>
                    let sourcemap :=
                      match transformed_map transformed with
                      | Some m => genSourceMapString m
                      | None => []
                      end in
                    (st, Responds (transformed_contents transformed ++ sourcemap)
                                  (js "js"))
                end
            end
        end
    end.

(** The function given to [app.use] in [pluginsMiddleware]. Its first
    statement, [Object.assign(ctx, context)], attaches the server context
    to [ctx] and changes neither [ctx.path] nor the headers. *)
Definition pluginsMiddleware (st : State) (ctx : Context) : State * Outcome :=
  match filter_request ctx with
  | PassedToNext => (st, Next)
  | Intercepted => serve_module st ctx
  end.

(** *** [hmrMiddleware], lines 515-571 *)

(** Not among the sources: the constant [HMR_SERVER_NAME]. *)
Variable HMR_SERVER_NAME : str.

Inductive EventArg : Type :=
| ASocket (id : nat)
| AData (data : ClientPayload)
| AError (code : str).

(** The body of the ['message'] listener, lines 539-548. The node that
    [ensureEntry] returns is the object held by the graph, so that the
    two assignments change the graph. [None] when [importPathToFile]
    throws. *)
Definition message_listener (st : State) (message : ClientPayload) : option State :=
  if bool_decide (type message = js "hotAccept") then
    file ← importPathToFile cwd root (path message);
    let '(nodes', entry) := ensureEntry (nodes st) file in
    let entry := {| importers := importers entry; importees := importees entry;
                    hasHmrAccept := true; isHmrEnabled := isHmrEnabled entry |} in
    let entry := {| importers := importers entry; importees := importees entry;
                    hasHmrAccept := hasHmrAccept entry; isHmrEnabled := true |} in
    Some (set_nodes (fun _ => <[file := entry]> nodes') st)
  else Some st.

(** One listener called with one argument; [None] when it throws. A
    listener given an argument of another kind than the one it is
    written for finds none of the fields it reads. *)
Definition call_listener (l : Listener) (arg : EventArg) (st : State) : option State :=
  match l, arg with
  | ConnectionListener, ASocket id =>
      (* socket.send(JSON.stringify({ type: 'connected' }));
         wss.on('message', ...) *)
      Some (add_listener Wss (js "message") MessageListener
              (add_sent id Connected st))
  | MessageListener, AData data => message_listener st data
  | ErrorListener, AError _ => Some st
  | _, _ => None
  end.

(** [emitter.emit(event, arg)]: the listeners registered on [emitter]
    for [event] when the call is made are called in the order of their
    registration; an exception ends the call. *)
Fixpoint call_all (ls : list Listener) (arg : EventArg) (st : State) : State :=
  match ls with
  | [] => st
  | l :: ls' =>
      match call_listener l arg st with
      | Some st' => call_all ls' arg st'
      | None => st
      end
  end.

Definition listeners_of (e : Emitter) (event : str) (st : State) : list Listener :=
  omap (fun r => if bool_decide (r.1 = (e, event)) then Some r.2 else None)
       (listeners st).

Definition emit (e : Emitter) (event : str) (arg : EventArg) (st : State) : State :=
  call_all (listeners_of e event st) arg st.

(** The registrations made by the function given to [app.use] in
    [hmrMiddleware] on the first request. *)
Definition hmr_install (st : State) : State :=
  add_listener Wss (js "error") ErrorListener
    (add_listener Wss (js "connection") ConnectionListener st).

(** What reaches the server from outside.
    - An upgrade request: the ['upgrade'] listener of lines 528-534
      emits ['connection'] on [wss] when the request names the HMR
      protocol.
    - A message sent by the client of socket [id]: the [ws] library
      emits ['message'] on that socket. *)
Inductive Event : Type :=
| Upgrade (protocol : option str) (id : nat)
| ClientSends (id : nat) (data : ClientPayload).

Definition handle (st : State) (ev : Event) : State :=
  match ev with
  | Upgrade protocol id =>
      if bool_decide (protocol = Some HMR_SERVER_NAME)
      then emit Wss (js "connection") (ASocket id) st
      else st
  | ClientSends id data => emit (Socket id) (js "message") (AData data) st
  end.

Definition run (st : State) (evs : list Event) : State :=
  fold_left handle evs st.

End CreateApp.

(** *** Sample inputs, and the invariant of the listener table *)

(** A handler whose plugins load nothing. *)
Definition plain_middleware (root : str) : State -> Context -> State * Outcome :=
  pluginsMiddleware (js "/") root unit (fun _ => None) (fun _ _ _ => None)
                    (fun _ => []).

Definition script_request (path : str) : Context :=
  {| ctx_path := path; headers := {[ js "sec-fetch-dest" := js "script" ]} |}.

Definition any_request (path : str) : Context :=
  {| ctx_path := path; headers := {[ js "accept" := js "*/*" ]} |}.

Definition in_node_modules (p : str) : bool := includes p (js "node_modules").

(** A pre-bundler that always fails. *)
Definition failing_prebundle (_ : PrebundleArgs) : Result (gmap str str) :=
  Thrown (js "Error: Build failed with 1 error").

(** A pre-bundler that bundles package [foo]. *)
Definition foo_prebundle (_ : PrebundleArgs) : Result (gmap str str) :=
  Ok {[ js "node_modules/foo/index.js" := js "web_modules/foo.js" ]}.

Definition resolve_with (prebundle : PrebundleArgs -> Result (gmap str str))
  : State -> str -> State * Result (option JsValue) :=
  onResolved (js "/") (js "/r") in_node_modules (js "web_modules") prebundle
             (fun _ => js "{}").

(** Every registration made by [hmrMiddleware] is on the server object
    [wss]: the ['connection'] and ['error'] listeners, and one
    ['message'] listener for each connection. *)
Definition registered_on_wss (st : State) : Prop :=
  Forall (fun r => r = (Wss, js "connection", ConnectionListener)
                   \/ r = (Wss, js "error", ErrorListener)
                   \/ r = (Wss, js "message", MessageListener))
         (listeners st).

End Server.

(** ** Objects whose property order matters *)

(** A JavaScript object held as the list of its properties in the order
    in which [Object.keys] lists them. *)
Module JsObject.

(** [Object.keys(o)] *)
Definition keys {V} (o : list (str * V)) : list str := o.*1.

(** [o[k]]; [None] is [undefined]. *)
Fixpoint get {V} (o : list (str * V)) (k : str) : option V :=
  match o with
  | [] => None
  | (k', v) :: o' => if bool_decide (k' = k) then Some v else get o' k
  end.

End JsObject.

(** ** [src/bundless/src/prebundle/esbuild.ts]: the bundle map, the
       statistics and the environment replacements *)

Module Metafile.
Import JsString.

(** An entry of [meta.outputs]; [inputs] is an object whose keys are read
    in order. *)
Record Output : Type := {
  bytes : N;
  inputs : list (str * N);
  exports : option (list str);
}.

(** [DependencyStatsOutput]: each map sends a relative path to the [size]
    of its one-field record. *)
Record DependencyStatsOutput : Type := {
  common : gmap str N;
  direct : gmap str N;
}.

(** An element of [stats] in [metafileToStats]. *)
Record Stat : Type := {
  stat_path : str;
  isCommon : bool;
  stat_bytes : N;
}.

Section Metafile.
(** [osAgnosticPath] of [src/prebundle/support.ts] is not among the
    sources. [cwd] is the working directory of the process. *)
Variable osAgnosticPath : str -> str -> str.
Variable cwd : str.

(** The message of the [TypeError] raised by reading a property of
    [undefined]; its text is the engine's. *)
Variable type_error : str.

(** The callback given to [.map] in [metafileToBundleMap], lines 166-183.
    [inputFiles] is the [Set] of line 163. *)
Definition bundleMap_entry (inputFiles : gset str) (outputs : list (str * Output))
    (root esbuildCwd output : str) : Result (option (str * str)) :=
  (* chunks cannot be entrypoints *)
  if startsWith (Path.basename output) (js "chunk.") then Ok None
  else
    match JsObject.get outputs output with
    | None => Thrown type_error
    | Some info =>
        let inputs := JsObject.keys (inputs info) in
        let input :=
          find (fun x => bool_decide (x ∈ inputFiles))
               (map (fun x => Path.resolve cwd [esbuildCwd; x]) inputs) in
        match input with
        | Some input =>
            if negb (Server.truthy (Some (Str input))) then Ok None
            else Ok (Some (osAgnosticPath input root,
                           osAgnosticPath (Path.resolve cwd [esbuildCwd; output]) root))
        | None => Ok None
        end
    end.

(** [metafileToBundleMap({ entryPoints, meta, root, esbuildCwd })], lines
    156-189, on [meta.outputs]. *)
Definition metafileToBundleMap (entryPoints : list str)
    (outputs : list (str * Output)) (root esbuildCwd : str)
  : Result (gmap str str) :=
  let inputFiles : gset str :=
    list_to_set (map (fun x => Path.resolve cwd [root; x]) entryPoints) in
  bind_result
    (map_result (bundleMap_entry inputFiles outputs root esbuildCwd)
                (JsObject.keys outputs))
    (fun maps => Ok (fromEntries (omap id maps))).

(** Where an entry [k], [v] of the bundle map comes from: an output
    that is not a chunk, and an entry point among its inputs. *)
Definition bundle_origin (entryPoints : list str) (outputs : list (str * Output))
    (root esbuildCwd k v : str) : Prop :=
  exists output info input entry,
    JsObject.get outputs output = Some info
    /\ startsWith (Path.basename output) (js "chunk.") = false
    /\ input ∈ JsObject.keys (inputs info)
    /\ entry ∈ entryPoints
    /\ Path.resolve cwd [esbuildCwd; input] = Path.resolve cwd [root; entry]
    /\ k = osAgnosticPath (Path.resolve cwd [root; entry]) root
    /\ v = osAgnosticPath (Path.resolve cwd [esbuildCwd; output]) root.

(** The callback given to [.map] in [metafileToStats], lines 231-241. *)
Definition stat_of (outputs : list (str * Output)) (output : str) : Result Stat :=
  match JsObject.get outputs output with
  | None => Thrown type_error
  | Some value =>
      Ok {| stat_path := output;
            isCommon := existsb (fun x => startsWith (Path.basename output) x)
                                [js "chunk."];
            stat_bytes := bytes value |}
  end.

(** [makeStatObject(value)], lines 243-252: an object with one property,
    held as that property. *)
Definition makeStatObject (destLoc : str) (value : Stat) : str * N :=
  let relativePath := slash (Path.relative cwd destLoc (stat_path value)) in
  (relativePath, stat_bytes value).

(** [Object.assign({}, ...objects)] for objects with one property each:
    the property of every object is assigned to the target in order, by
    [target[key] = value], so a later object overwrites an earlier one
    and the key [__proto__] files nothing (there the assignment makes
    the value the prototype of the target). The result is held as its
    own properties. *)
Definition assign_all {V} (objects : list (str * V)) : gmap str V :=
  fold_left (fun target kv => Object_set target kv.1 kv.2) objects ∅.

(** [metafileToStats({ meta, destLoc })], lines 226-264, on
    [meta.outputs]. *)
Definition metafileToStats (outputs : list (str * Output)) (destLoc : str)
  : Result DependencyStatsOutput :=
  bind_result (map_result (stat_of outputs) (JsObject.keys outputs))
    (fun stats =>
       Ok {| common :=
               assign_all (map (makeStatObject destLoc)
                               (List.filter (fun x => isCommon x) stats));
             direct :=
               assign_all (map (makeStatObject destLoc)
                               (List.filter (fun x => negb (isCommon x)) stats)) |}).

End Metafile.

Section Env.
(** The values of [env], and [JSON.stringify] on them. *)
Variable Value : Type.
Variable JSON_stringify : Value -> str.

(** The function given to [.reduce] in [generateEnvReplacements]. For a
    key of [env] the value [env[key]] is there. *)
Definition env_step (env : gmap str Value) (acc : gmap str str) (key : str)
  : gmap str str :=
  match env !! key with
  | Some v => <[js "process.env." ++ key := JSON_stringify v]> acc
  | None => acc
  end.

(** [generateEnvReplacements(env)], lines 266-271. The keys written are
    distinct, so that the order of [Object.keys] does not show in the
    result. *)
Definition generateEnvReplacements (env : gmap str Value) : gmap str str :=
  fold_left (env_step env) (Object_keys env) ∅.

(** The [define] option built in [bundleWithEsBuild], lines 93-98; [dev]
    is the string ['dev']. In an object literal a spread property
    overwrites the properties written before it. *)
Definition esbuild_define (dev : Value) (env : gmap str Value) : gmap str str :=
  generateEnvReplacements env
  ∪ {[ js "process.env.NODE_ENV" := JSON_stringify dev;
       js "global" := js "window" ]}.

End Env.

(** *** Sample inputs *)

(** Two entry points bundled into two outputs that share a chunk. *)
Definition sample_outputs : list (str * Output) :=
  [ (js "web_modules/foo.js",
     {| bytes := 120;
        inputs := [(js "node_modules/foo/lib/util.js", 20%N);
                   (js "node_modules/foo/index.js", 100%N)];
        exports := Some [js "default"] |});
    (js "web_modules/chunk.AB12.js",
     {| bytes := 40;
        inputs := [(js "node_modules/shared/index.js", 40%N)];
        exports := Some [js "a"] |});
    (js "web_modules/bar.js",
     {| bytes := 300;
        inputs := [(js "node_modules/bar/index.js", 300%N)];
        exports := Some [js "a"; js "b"] |}) ].

Definition sample_entryPoints : list str :=
  [js "node_modules/foo/index.js"; js "node_modules/bar/index.js"].

Definition sample_key (absPath root : str) : str :=
  slash (Path.relative (js "/") root absPath).

End Metafile.

(** ** Further notions used to state properties *)

(** A segment of a URL path that the codec leaves as it is: a name other
    than ['.'], without ['/'], without two dots in a row and without the
    characters that the decoder reads (['%'], ['?'], ['#']). *)
Definition plain_segment (seg : str) : bool :=
  negb (bool_decide (seg = []))
  && negb (bool_decide (seg = Path.dot))
  && negb (JsString.includes seg (js "/"))
  && negb (JsString.includes seg (js ".."))
  && negb (JsString.includes seg (js "%"))
  && negb (JsString.includes seg (js "?"))
  && negb (JsString.includes seg (js "#")).

(** The sockets of the upgrade requests that name the HMR protocol, in
    the order of the requests. *)
Definition accepted (HMR_SERVER_NAME : str) (evs : list Server.Event) : list nat :=
  omap (fun ev =>
          match ev with
          | Server.Upgrade protocol id =>
              if bool_decide (protocol = Some HMR_SERVER_NAME) then Some id else None
          | Server.ClientSends _ _ => None
          end) evs.

(** The listener table and the messages sent once the upgrade requests
    of the sockets [ids] have been accepted. *)
Definition table_after (ids : list nat) (st : Server.State) : Prop :=
  Server.listeners st
  = [(Server.Wss, js "connection", Server.ConnectionListener);
     (Server.Wss, js "error", Server.ErrorListener)]
    ++ map (fun _ => (Server.Wss, js "message", Server.MessageListener)) ids
  /\ Server.sent st = map (fun id => (id, Server.Connected)) ids.

(** * Properties *)

(** ** Strings *)

Section StringFacts.
Import JsString.

(** Induction that follows a scan consuming one or two characters. *)
Lemma str_ind2 (P : str -> Prop) :
  P [] -> (forall a, P [a]) ->
  (forall a b t, P t -> P (b :: t) -> P (a :: b :: t)) ->
  forall s, P s.
Proof.
  intros H0 H1 H2 s.
  assert (P s /\ forall a, P (a :: s)) as [? _]; [|done].
  induction s as [|b t [IH1 IH2]]; split; auto.
Qed.

Lemma split_nonempty c s : split c s <> [].
Proof.
  destruct s as [|a s]; simpl; [done|].
  case_bool_decide; [done|]. by destruct (split c s).
Qed.

Lemma split_app c a b : split c (a ++ c :: b) = split c a ++ split c b.
Proof.
  induction a as [|x a IH]; simpl.
  - by rewrite bool_decide_eq_true_2.
  - case_bool_decide; [by rewrite IH|].
    rewrite IH. pose proof (split_nonempty c a).
    by destruct (split c a).
Qed.

Lemma split_no_sep c s : c ∉ s -> split c s = [s].
Proof.
  induction s as [|a s IH]; [done|]. intros Hn. simpl.
  rewrite bool_decide_eq_false_2; [|set_solver].
  rewrite IH; [done|set_solver].
Qed.

Lemma split_segments_no_sep c s : Forall (fun seg => c ∉ seg) (split c s).
Proof.
  induction s as [|a s IH]; simpl.
  - repeat constructor. set_solver.
  - case_bool_decide.
    + constructor; [set_solver|done].
    + destruct (split c s) as [|h r]; [repeat constructor; set_solver|].
      inversion IH; subst. constructor; [set_solver|done].
Qed.

Lemma join_cons c x l : l <> [] -> join c (x :: l) = x ++ c :: join c l.
Proof. by destruct l. Qed.

Lemma join_split c s : join c (split c s) = s.
Proof.
  induction s as [|a s IH]; [done|]. simpl.
  case_bool_decide; subst.
  - rewrite join_cons; [|apply split_nonempty]. by rewrite IH.
  - pose proof (split_nonempty c s).
    destruct (split c s) as [|h r] eqn:E; [done|].
    destruct r; simpl in *; by rewrite <- IH.
Qed.

Lemma split_join c l :
  l <> [] -> Forall (fun seg => c ∉ seg) l -> split c (join c l) = l.
Proof.
  induction l as [|x l IH]; [done|]. intros _ Hl.
  inversion Hl; subst. destruct l as [|y l].
  - simpl. by apply split_no_sep.
  - rewrite join_cons; [|done]. rewrite split_app, IH; [|done..].
    by rewrite split_no_sep by done.
Qed.

Lemma join_append c l1 l2 :
  l1 <> [] -> l2 <> [] -> join c (l1 ++ l2) = join c l1 ++ c :: join c l2.
Proof.
  induction l1 as [|x l1 IH]; [done|]. intros _ H2.
  destruct l1 as [|y l1].
  - simpl app. by rewrite join_cons.
  - change ((x :: y :: l1) ++ l2) with (x :: ((y :: l1) ++ l2)).
    rewrite (join_cons c x ((y :: l1) ++ l2)) by (simpl; done).
    rewrite IH by done. rewrite (join_cons c x (y :: l1)) by done.
    by rewrite <- app_assoc.
Qed.

Lemma elem_of_join c l x :
  x ∈ join c l -> x = c \/ exists seg, seg ∈ l /\ x ∈ seg.
Proof.
  induction l as [|y l IH]; [set_solver|].
  destruct l as [|z l].
  - simpl. intros. right. exists y. set_solver.
  - rewrite join_cons; [|done]. rewrite elem_of_app, elem_of_cons.
    intros [?|[?|?]]; [right; exists y; set_solver|by left|].
    destruct IH as [?|(seg & ? & ?)]; [done|by left|].
    right. exists seg. set_solver.
Qed.


(** Joining is injective on lists of non-empty pieces without the
    separator. *)
Lemma join_inj c l1 l2 :
  Forall (fun seg => seg <> [] /\ c ∉ seg) l1 ->
  Forall (fun seg => seg <> [] /\ c ∉ seg) l2 ->
  join c l1 = join c l2 -> l1 = l2.
Proof.
  intros H1 H2 E.
  assert (forall l, Forall (fun seg => seg <> [] /\ c ∉ seg) l ->
                    join c l = [] -> l = []) as Hnil.
  { intros [|x [|y l]] Hl; [done|..]; inversion Hl; subst; simpl; intros ?.
    - naive_solver.
    - by destruct x. }
  destruct l1 as [|x1 l1].
  { symmetry. apply Hnil; [done|]. by rewrite <- E. }
  destruct l2 as [|x2 l2].
  { apply Hnil; [done|]. by rewrite E. }
  rewrite <- (split_join c (x1 :: l1)), E, split_join; try done.
  - eapply Forall_impl; [exact H2|]. naive_solver.
  - eapply Forall_impl; [exact H1|]. naive_solver.
Qed.

(** [slash] turns backslashes into slashes, also after the character
    U+0080, and leaves a string with a character above U+0080 (here
    U+00E9, the octets 195 169) as it is. *)
Example slash_samples :
  slash ["a"; backslash; "b"] = js "a/b"
  /\ slash ["194"; "128"; backslash; "b"] = ["194"; "128"; "/"; "b"]
  /\ slash ["195"; "169"; backslash; "b"] = ["195"; "169"; backslash; "b"].
Proof. repeat split. Qed.

End StringFacts.

(** ** The two replacements of the codec *)

Section ReplaceFacts.
Import JsString.

Lemma replace_dotdot_dots t :
  replace_dotdot ("." :: "." :: t) = "." :: "." :: "." :: replace_dotdot t.
Proof. done. Qed.

Lemma replace_dotdot_cons a s :
  startsWith (a :: s) (js "..") = false ->
  replace_dotdot (a :: s) = a :: replace_dotdot s.
Proof.
  destruct s as [|b t]; [done|]. simpl.
  do 2 case_bool_decide; simpl; done.
Qed.

(** The replacement keeps the first character. *)
Lemma replace_dotdot_head b t : exists r, replace_dotdot (b :: t) = b :: r.
Proof.
  destruct t as [|c t]; [by eexists|]. simpl.
  do 2 case_bool_decide; simpl; subst; by eexists.
Qed.

Lemma replace_dotdotdot_dots t :
  replace_dotdotdot ("." :: "." :: "." :: t) = "." :: "." :: replace_dotdotdot t.
Proof. done. Qed.

Lemma replace_dotdotdot_cons a s :
  startsWith (a :: s) (js "...") = false ->
  replace_dotdotdot (a :: s) = a :: replace_dotdotdot s.
Proof.
  destruct s as [|b [|c t]]; [done..|]. simpl.
  do 3 case_bool_decide; simpl; done.
Qed.

Lemma startsWith_cases a s :
  startsWith (a :: s) (js "..") = true ->
  exists t, a = "." /\ s = "." :: t.
Proof.
  destruct s as [|b t]; simpl.
  - case_bool_decide; done.
  - do 2 case_bool_decide; simpl; try done. subst. by eexists.
Qed.

(** Decoding undoes encoding, on every string: a run of [2k] or [2k+1]
    dots becomes one of [3k] or [3k+1] dots and comes back. *)
Lemma replace_roundtrip s : replace_dotdotdot (replace_dotdot s) = s.
Proof.
  induction s as [|a|a b t IH1 IH2] using str_ind2; [done..|].
  destruct (startsWith (a :: b :: t) (js "..")) eqn:E.
  - apply startsWith_cases in E as (t' & -> & [= -> ->]).
    rewrite replace_dotdot_dots, replace_dotdotdot_dots. by rewrite IH1.
  - rewrite replace_dotdot_cons by done.
    destruct (replace_dotdot_head b t) as [r Hr].
    rewrite replace_dotdotdot_cons; [by rewrite IH2|].
    rewrite Hr. revert E. simpl.
    do 2 case_bool_decide; simpl; try done.
Qed.

Lemma replace_dotdot_inj s1 s2 :
  replace_dotdot s1 = replace_dotdot s2 -> s1 = s2.
Proof.
  intros E. by rewrite <- (replace_roundtrip s1), E, replace_roundtrip.
Qed.

(** No string is encoded as ['..']. *)
Lemma replace_dotdot_not_dotdot s : replace_dotdot s <> Path.dotdot.
Proof.
  destruct s as [|a [|b t]]; [done..|].
  destruct (startsWith (a :: b :: t) (js "..")) eqn:E.
  - apply startsWith_cases in E as (t' & -> & [= -> ->]). done.
  - rewrite replace_dotdot_cons by done.
    destruct (replace_dotdot_head b t) as [r ->].
    intros [= -> -> ->]. done.
Qed.

Lemma elem_of_replace_dotdot x s : x ∈ replace_dotdot s -> x ∈ s.
Proof.
  induction s as [|a|a b t IH1 IH2] using str_ind2; [done..|].
  destruct (startsWith (a :: b :: t) (js "..")) eqn:E.
  - apply startsWith_cases in E as (t' & -> & [= -> ->]).
    rewrite replace_dotdot_dots. set_solver.
  - rewrite replace_dotdot_cons by done. set_solver.
Qed.


(** Both replacements work inside the pieces between two ['/']. *)
Lemma startsWith_slash b p : startsWith ("/" :: b) ("." :: p) = false.
Proof. done. Qed.

Lemma startsWith_app_slash a b p :
  Forall (fun c => c = ".") p ->
  startsWith (a ++ "/" :: b) p = startsWith a p.
Proof.
  intros Hp. revert a. induction Hp as [|c p -> _ IH]; intros a; [done|].
  destruct a as [|x a]; [done|]. simpl. by rewrite IH.
Qed.

Lemma replace_dotdot_app a b :
  replace_dotdot (a ++ "/" :: b) = replace_dotdot a ++ "/" :: replace_dotdot b.
Proof.
  induction a as [|x|x y t IH1 IH2] using str_ind2.
  - simpl app. by rewrite replace_dotdot_cons.
  - simpl app. rewrite !replace_dotdot_cons; try done.
    simpl. by rewrite andb_false_r.
  - destruct (startsWith (x :: y :: t) (js "..")) eqn:E.
    + apply startsWith_cases in E as (t' & -> & [= -> ->]).
      simpl app. rewrite !replace_dotdot_dots, IH1. done.
    + change ((x :: y :: t) ++ "/" :: b) with (x :: ((y :: t) ++ "/" :: b)).
      rewrite (replace_dotdot_cons x (y :: t)) by done.
      rewrite replace_dotdot_cons, IH2; [done|].
      change (x :: (y :: t) ++ "/" :: b) with ((x :: y :: t) ++ "/" :: b).
      rewrite startsWith_app_slash; [done|]. by repeat constructor.
Qed.

Lemma replace_dotdotdot_app a b :
  replace_dotdotdot (a ++ "/" :: b)
  = replace_dotdotdot a ++ "/" :: replace_dotdotdot b.
Proof.
  remember (length a) as n eqn:Hn. revert a Hn.
  induction n as [n IH] using lt_wf_ind. intros a ->.
  destruct a as [|x a].
  { simpl app. by rewrite replace_dotdotdot_cons. }
  destruct (startsWith (x :: a) (js "...")) eqn:E.
  - destruct a as [|y [|z t]]; simpl in E;
      repeat case_bool_decide; simpl in E; try done. subst.
    simpl app. rewrite !replace_dotdotdot_dots.
    rewrite (IH (length t)); [done| simpl; lia | done].
  - change ((x :: a) ++ "/" :: b) with (x :: (a ++ "/" :: b)).
    rewrite (replace_dotdotdot_cons x a) by done.
    rewrite replace_dotdotdot_cons, (IH (length a)); [done|simpl; lia|done|].
    change (x :: a ++ "/" :: b) with ((x :: a) ++ "/" :: b).
    rewrite startsWith_app_slash; [done|]. by repeat constructor.
Qed.

Lemma replace_dotdot_join l :
  replace_dotdot (join "/" l) = join "/" (map replace_dotdot l).
Proof.
  induction l as [|x l IH]; [done|].
  destruct l as [|y l]; [done|].
  rewrite join_cons by done. rewrite replace_dotdot_app, IH.
  change (map replace_dotdot (x :: y :: l))
    with (replace_dotdot x :: map replace_dotdot (y :: l)).
  by rewrite join_cons.
Qed.

Lemma replace_dotdotdot_join l :
  replace_dotdotdot (join "/" l) = join "/" (map replace_dotdotdot l).
Proof.
  induction l as [|x l IH]; [done|].
  destruct l as [|y l]; [done|].
  rewrite join_cons by done. rewrite replace_dotdotdot_app, IH.
  change (map replace_dotdotdot (x :: y :: l))
    with (replace_dotdotdot x :: map replace_dotdotdot (y :: l)).
  by rewrite join_cons.
Qed.

(** The pieces of an encoded string are the encoded pieces. *)
Lemma split_replace_dotdot s :
  split "/" (replace_dotdot s) = map replace_dotdot (split "/" s).
Proof.
  rewrite <- (join_split "/" s) at 1. rewrite replace_dotdot_join.
  apply split_join.
  - pose proof (split_nonempty "/" s). by destruct (split "/" s).
  - apply Forall_map. eapply Forall_impl; [apply split_segments_no_sep|].
    intros seg Hseg Hin. by apply Hseg, elem_of_replace_dotdot.
Qed.

(** A string without the escape token is left alone by the decoder. *)
Lemma replace_dotdotdot_id s :
  includes s (js "...") = false -> replace_dotdotdot s = s.
Proof.
  induction s as [|a s IH]; [done|].
  simpl includes. intros [E1 E2]%orb_false_elim.
  rewrite replace_dotdotdot_cons by done. by rewrite IH.
Qed.

End ReplaceFacts.

(** ** Node's path functions on absolute paths *)

Section PathFacts.
Import JsString Path.

Lemma normalize_step_normal b res seg :
  normal_seg seg -> normalize_step b res seg = seg :: res.
Proof.
  intros (? & ? & ? & ?). unfold normalize_step.
  by rewrite !bool_decide_eq_false_2.
Qed.

Lemma normalize_step_empty b res : normalize_step b res [] = res.
Proof. done. Qed.

Lemma fold_normal b l res :
  Forall normal_seg l ->
  fold_left (normalize_step b) l res = rev l ++ res.
Proof.
  intros Hl. revert res. induction Hl as [|seg l Hseg _ IH]; intros res; [done|].
  simpl. rewrite normalize_step_normal by done. rewrite IH.
  by rewrite <- app_assoc.
Qed.

Lemma normalize_step_keeps_normal res seg :
  "/" ∉ seg -> Forall normal_seg res ->
  Forall normal_seg (normalize_step false res seg).
Proof.
  intros Hs Hres. unfold normalize_step.
  destruct (bool_decide (seg = [])) eqn:E1; [done|].
  destruct (bool_decide (seg = dot)) eqn:E2; [done|]. simpl.
  apply bool_decide_eq_false in E1, E2.
  case_bool_decide.
  - destruct res as [|top rest]; [done|].
    case_bool_decide; [done|]. by inversion Hres.
  - by constructor.
Qed.

Lemma fold_keeps_normal l res :
  Forall (fun seg => "/" ∉ seg) l -> Forall normal_seg res ->
  Forall normal_seg (fold_left (normalize_step false) l res).
Proof.
  intros Hl. revert res. induction Hl as [|seg l Hseg _ IH]; intros res Hres; [done|].
  simpl. by apply IH, normalize_step_keeps_normal.
Qed.

Lemma norm_normal p : Forall normal_seg (norm p).
Proof.
  unfold norm, normalize_segments. apply Forall_rev, fold_keeps_normal; [|done].
  apply split_segments_no_sep.
Qed.

Lemma normal_seg_sep l :
  Forall normal_seg l -> Forall (fun seg => seg <> [] /\ "/" ∉ seg) l.
Proof. intros H. eapply Forall_impl; [exact H|]. unfold normal_seg. naive_solver. Qed.

Lemma isAbsolute_cons p : isAbsolute p = true -> exists t, p = "/" :: t.
Proof.
  destruct p as [|a t]; [done|]. unfold isAbsolute. simpl.
  case_bool_decide; [|done]. subst. by eexists.
Qed.

(** [path.resolve] stops at its last absolute argument and normalizes
    it; the working directory is not read. *)
Lemma resolve_absolute cwd args p :
  isAbsolute p = true ->
  resolve cwd (args ++ [p]) = abs_path (norm p).
Proof.
  intros Hp. unfold resolve. rewrite rev_app_distr. simpl.
  destruct (isAbsolute_cons p Hp) as [t ->].
  rewrite bool_decide_eq_false_2 by done. rewrite Hp. simpl negb.
  unfold abs_path, normalizeString, norm, normalize_segments. do 3 f_equal.
  rewrite (split_app "/" ("/" :: t) []).
  by rewrite fold_left_app.
Qed.

Lemma split_abs_path segs :
  Forall (fun seg => "/" ∉ seg) segs ->
  exists tl, split "/" (abs_path segs) = [] :: segs ++ tl
             /\ Forall (fun s => s = []) tl.
Proof.
  intros Hs. unfold abs_path.
  change ("/" :: join "/" segs) with ([] ++ "/" :: join "/" segs).
  rewrite split_app. simpl.
  destruct segs as [|x segs].
  - exists [[]]. split; [done|]. by repeat constructor.
  - exists []. rewrite app_nil_r. split; [|done]. f_equal.
    by apply split_join.
Qed.

Lemma normal_seg_no_sep l :
  Forall normal_seg l -> Forall (fun seg => "/" ∉ seg) l.
Proof. intros H. eapply Forall_impl; [exact H|]. unfold normal_seg. naive_solver. Qed.

Lemma fold_empties b tl res :
  Forall (fun s => s = []) tl -> fold_left (normalize_step b) tl res = res.
Proof.
  intros H. revert res. induction H as [|s tl -> _ IH]; intros res; [done|].
  simpl. by rewrite IH.
Qed.

(** Normalizing is idempotent. *)
Lemma norm_abs_path segs : Forall normal_seg segs -> norm (abs_path segs) = segs.
Proof.
  intros Hs.
  destruct (split_abs_path segs (normal_seg_no_sep _ Hs)) as (tl & E & Htl).
  unfold norm, normalize_segments. rewrite E. simpl.
  rewrite normalize_step_empty, fold_left_app.
  rewrite (fold_normal _ segs) by done.
  rewrite fold_empties by done. by rewrite app_nil_r, rev_involutive.
Qed.

Lemma segments_abs_path segs :
  Forall normal_seg segs -> segments (abs_path segs) = segs.
Proof.
  intros Hs.
  destruct (split_abs_path segs (normal_seg_no_sep _ Hs)) as (tl & E & Htl).
  unfold segments. rewrite E.
  rewrite filter_cons_False by naive_solver.
  rewrite filter_app.
  assert (filter (fun seg : str => seg <> []) tl = []) as ->.
  { clear E. induction Htl as [|s tl -> _ IH]; [done|].
    by rewrite filter_cons_False by naive_solver. }
  rewrite app_nil_r.
  clear E. induction Hs as [|s segs Hs _ IH]; [done|].
  rewrite filter_cons_True by apply Hs. by rewrite IH.
Qed.

Lemma abs_path_inj l1 l2 :
  Forall normal_seg l1 -> Forall normal_seg l2 ->
  abs_path l1 = abs_path l2 -> l1 = l2.
Proof.
  intros H1 H2 [= E]. eapply join_inj; [..|exact E]; by apply normal_seg_sep.
Qed.

(** [strip_common] splits both lists after a common prefix. *)
Lemma strip_common_spec from to :
  exists common,
    from = common ++ (strip_common from to).1
    /\ to = common ++ (strip_common from to).2.
Proof.
  revert to. induction from as [|f from IH]; intros to; [by exists []|].
  destruct to as [|t to]; [by exists []|]. simpl.
  case_bool_decide; [|by exists []]. subst.
  destruct (IH to) as (common & E1 & E2). exists (t :: common).
  simpl. by rewrite <- E1, <- E2.
Qed.

(** When both lists are not exhausted the remainders start differently. *)
Lemma strip_common_heads from to f up t down :
  strip_common from to = (f :: up, t :: down) -> f <> t.
Proof.
  revert to. induction from as [|f' from IH]; intros to; [done|].
  destruct to as [|t' to]; [done|]. simpl.
  case_bool_decide; [apply IH|]. by intros [= -> -> -> ->].
Qed.

(** [path.relative] between two absolute paths. *)
Lemma relative_absolute cwd root p :
  isAbsolute root = true -> isAbsolute p = true ->
  relative cwd root p
  = join "/" (map (fun _ => dotdot) (strip_common (norm root) (norm p)).1
              ++ (strip_common (norm root) (norm p)).2).
Proof.
  intros Hr Hp. unfold relative.
  assert (forall l, strip_common l l = ([], [])) as Hrefl.
  { induction l as [|x l IH]; [done|]. simpl. by rewrite bool_decide_eq_true_2. }
  case_bool_decide as E1.
  { subst. by rewrite Hrefl. }
  change [root] with ([] ++ [root]). change [p] with ([] ++ [p]).
  rewrite !resolve_absolute by done.
  case_bool_decide as E2.
  { apply abs_path_inj in E2; [|apply norm_normal..]. by rewrite E2, Hrefl. }
  rewrite !segments_abs_path by apply norm_normal.
  by destruct (strip_common (norm root) (norm p)).
Qed.

End PathFacts.

(** ** The path codec *)

Section CodecFacts.
Import JsString Path Convertors.

Lemma decode_no_percent s : "%" ∉ s -> decodeURIComponent s = Some s.
Proof.
  unfold decodeURIComponent. induction s as [|c s IH]; [done|].
  intros Hn. simpl. rewrite bool_decide_eq_false_2 by set_solver.
  rewrite IH by set_solver. done.
Qed.

Lemma cleanUrl_id s : "?" ∉ s -> "#" ∉ s -> cleanUrl s = s.
Proof.
  induction s as [|c s IH]; [done|]. intros H1 H2. simpl.
  rewrite !bool_decide_eq_false_2 by set_solver. simpl.
  rewrite IH; [done|set_solver..].
Qed.

Lemma elem_of_replace_dotdotdot x s : x ∈ replace_dotdotdot s -> x ∈ s.
Proof.
  remember (length s) as n eqn:Hn. revert s Hn.
  induction n as [n IH] using lt_wf_ind. intros s ->.
  destruct s as [|a s]; [done|].
  destruct (startsWith (a :: s) (js "...")) eqn:E.
  - destruct s as [|y [|z t]]; simpl in E;
      repeat case_bool_decide; simpl in E; try done. subst.
    rewrite replace_dotdotdot_dots. rewrite !elem_of_cons.
    intros [?|[?|?]]; [by left|by left|].
    do 3 right. eapply IH; [|done..]. simpl. lia.
  - rewrite replace_dotdotdot_cons by done. rewrite !elem_of_cons.
    intros [?|?]; [by left|]. right. eapply IH; [|done..]. simpl. lia.
Qed.

Lemma split_replace_dotdotdot s :
  split "/" (replace_dotdotdot s) = map replace_dotdotdot (split "/" s).
Proof.
  rewrite <- (join_split "/" s) at 1. rewrite replace_dotdotdot_join.
  apply split_join.
  - pose proof (split_nonempty "/" s). by destruct (split "/" s).
  - apply Forall_map. eapply Forall_impl; [apply split_segments_no_sep|].
    intros seg Hseg Hin. by apply Hseg, elem_of_replace_dotdotdot.
Qed.

(** A root without the escape token: the decoder leaves each of its
    segments alone. *)
Lemma root_segments_fixed root seg :
  includes root (js "...") = false ->
  seg ∈ split "/" root -> replace_dotdotdot seg = seg.
Proof.
  intros Hr%replace_dotdotdot_id Hseg.
  pose proof (split_replace_dotdotdot root) as E. rewrite Hr in E.
  revert Hseg E. generalize (split "/" root). intros l.
  induction l as [|x l IH]; [set_solver|].
  simpl. intros Hin [= E1 E2]. apply elem_of_cons in Hin as [->|?]; auto.
Qed.

Lemma normalize_step_subset b res seg x :
  x ∈ normalize_step b res seg -> x ∈ res \/ x = seg.
Proof.
  unfold normalize_step.
  destruct (bool_decide (seg = []) || bool_decide (seg = dot)); [auto|].
  case_bool_decide; [|set_solver]. subst.
  destruct res as [|top rest]; [destruct b; set_solver|].
  case_bool_decide; destruct b; set_solver.
Qed.

Lemma elem_of_norm p seg : seg ∈ norm p -> seg ∈ split "/" p.
Proof.
  unfold norm, normalize_segments.
  rewrite list_elem_of_In, <- in_rev, <- list_elem_of_In.
  assert (forall l res, seg ∈ fold_left (normalize_step false) l res ->
                        seg ∈ res \/ seg ∈ l) as H.
  { induction l as [|y l IH]; intros res; simpl; [auto|].
    intros [Hin|?]%IH; [|set_solver].
    apply normalize_step_subset in Hin. set_solver. }
  intros [?|?]%H; set_solver.
Qed.


(** [path.resolve(root, request)] for an absolute [root] and a relative
    [request]: the segments of [request] are applied to those of
    [root]. *)
Lemma resolve_root_relative cwd root request :
  isAbsolute root = true -> isAbsolute request = false ->
  resolve cwd [root; request]
  = abs_path (rev (fold_left (normalize_step false) (split "/" request)
                             (rev (norm root)))).
Proof.
  intros Hr Hq. unfold resolve. simpl rev. simpl app.
  destruct (isAbsolute_cons root Hr) as [t ->].
  assert (rev (norm ("/" :: t))
          = fold_left (normalize_step false) (split "/" ("/" :: t)) []) as ->.
  { unfold norm, normalize_segments. by rewrite rev_involutive. }
  remember ("/" :: t) as r. simpl resolve_loop.
  case_bool_decide as E.
  - subst request. rewrite bool_decide_eq_false_2 by (by subst r).
    rewrite Hr. simpl negb. unfold abs_path, normalizeString, normalize_segments.
    do 3 f_equal. rewrite (split_app "/" r []).
    by rewrite fold_left_app.
  - rewrite Hq. rewrite bool_decide_eq_false_2 by (by subst r).
    rewrite Hr. simpl negb. unfold abs_path, normalizeString, normalize_segments.
    do 3 f_equal.
    rewrite (split_app "/" r (request ++ ["/"])), (split_app "/" request []).
    rewrite !fold_left_app. done.
Qed.



End CodecFacts.

Section Codec.
Import JsString Path Convertors.

Lemma isAbsolute_abs_path segs : isAbsolute (abs_path segs) = true.
Proof. done. Qed.

Lemma fileToImportPath_absolute cwd root p :
  isAbsolute root = true -> isAbsolute p = true ->
  fileToImportPath cwd root p
  = "/" :: replace_dotdot (join "/" (relative_segments root p)).
Proof.
  intros Hr Hp. unfold fileToImportPath.
  change [root; p] with ([root] ++ [p]). rewrite resolve_absolute by done.
  rewrite relative_absolute by done.
  by rewrite norm_abs_path by apply norm_normal.
Qed.

Lemma strip_common_normal root p :
  Forall normal_seg (strip_common (norm root) (norm p)).1
  /\ Forall normal_seg (strip_common (norm root) (norm p)).2.
Proof.
  destruct (strip_common_spec (norm root) (norm p)) as (common & E1 & E2).
  pose proof (norm_normal root) as H1. pose proof (norm_normal p) as H2.
  rewrite E1 in H1. rewrite E2 in H2.
  apply Forall_app in H1 as [_ ?]. apply Forall_app in H2 as [_ ?]. done.
Qed.

Lemma relative_segments_sep root p :
  Forall (fun seg => seg <> [] /\ seg <> dot /\ "/" ∉ seg) (relative_segments root p).
Proof.
  destruct (strip_common_normal root p) as [_ H2].
  apply Forall_app. split.
  - apply Forall_map, Forall_forall. intros x _. simpl.
    repeat split; try done. vm_compute. set_solver.
  - eapply Forall_impl; [exact H2|]. unfold normal_seg. naive_solver.
Qed.




End Codec.

Section CodecTheorems.
Import JsString Path Convertors.

Lemma includes_char s c : includes s [c] = false -> c ∉ s.
Proof.
  induction s as [|a s IH]; [set_solver|].
  simpl. intros [E1 E2]%orb_false_elim.
  rewrite andb_true_r in E1. apply bool_decide_eq_false in E1.
  apply not_elem_of_cons. split; [done|]. by apply IH.
Qed.

Lemma strip_common_prefix l k : strip_common l (l ++ k) = ([], k).
Proof.
  induction l as [|x l IH]; [by destruct k|].
  simpl. by rewrite bool_decide_eq_true_2.
Qed.





Example roundtrip_under_root :
  importPathToFile (js "/") (js "/home/app")
    (fileToImportPath (js "/") (js "/home/app") (js "/home/app/src/../a..b.js"))
  = Some (js "/home/app/a..b.js").
Proof. reflexivity. Qed.

(** Why the round trip asks for a path without ['%'], ['?'] and ['#'] and
    for a root without the escape token: the decoder reads them. *)
Example roundtrip_percent :
  importPathToFile (js "/") (js "/r") (fileToImportPath (js "/") (js "/r") (js "/r/a%20b"))
  = Some (js "/r/a b").
Proof. reflexivity. Qed.

Example roundtrip_malformed_percent :
  importPathToFile (js "/") (js "/r") (fileToImportPath (js "/") (js "/r") (js "/r/100%"))
  = None.
Proof. reflexivity. Qed.

Example roundtrip_hash :
  importPathToFile (js "/") (js "/r") (fileToImportPath (js "/") (js "/r") (js "/r/a#b"))
  = Some (js "/r/a").
Proof. reflexivity. Qed.

Example roundtrip_root_with_token :
  importPathToFile (js "/") (js "/r...x")
    (fileToImportPath (js "/") (js "/r...x") (js "/r...x/a"))
  = Some (js "/r..x/a").
Proof. reflexivity. Qed.

End CodecTheorems.

Section CodecInjective.
Import JsString Path Convertors.

(** A run of copies of [c] followed by a list that holds no [c] is read
    back in one way only. *)
Lemma run_app_inj {A B} (c : list A) (u1 u2 : list B) (d1 d2 : list (list A)) :
  Forall (fun x => x <> c) d1 -> Forall (fun x => x <> c) d2 ->
  map (fun _ => c) u1 ++ d1 = map (fun _ => c) u2 ++ d2 ->
  length u1 = length u2 /\ d1 = d2.
Proof.
  intros H1 H2. revert u2. induction u1 as [|x u1 IH]; intros [|y u2]; simpl.
  - done.
  - intros ->. inversion H1; subst. done.
  - intros <-. inversion H2; subst. done.
  - intros [= E]. destruct (IH u2 E) as [-> ->]. done.
Qed.

Lemma app_inv_length_r {A} (c1 c2 u1 u2 : list A) :
  c1 ++ u1 = c2 ++ u2 -> length u1 = length u2 -> c1 = c2.
Proof.
  intros E Hl.
  assert (length c1 = length c2) as Hc.
  { apply (f_equal length) in E. rewrite !length_app in E. lia. }
  by apply app_inj_1 in E as [? ?].
Qed.

(** The encoding determines the normal form of the encoded path. *)
Lemma fileToImportPath_determines_norm cwd root p1 p2 :
  isAbsolute root = true -> isAbsolute p1 = true -> isAbsolute p2 = true ->
  fileToImportPath cwd root p1 = fileToImportPath cwd root p2 ->
  norm p1 = norm p2.
Proof.
  intros Hr H1 H2. rewrite !fileToImportPath_absolute by done.
  intros [= E%replace_dotdot_inj].
  apply join_inj in E.
  2,3: eapply Forall_impl; [apply relative_segments_sep|]; naive_solver.
  destruct (strip_common_spec (norm root) (norm p1)) as (c1 & E1 & F1).
  destruct (strip_common_spec (norm root) (norm p2)) as (c2 & E2 & F2).
  destruct (strip_common_normal root p1) as [_ Hd1].
  destruct (strip_common_normal root p2) as [_ Hd2].
  apply run_app_inj in E as [Hlen Hdown].
  2,3: eapply Forall_impl; [eassumption|]; unfold normal_seg; naive_solver.
  rewrite F1, F2, Hdown. f_equal.
  eapply app_inv_length_r; [|exact Hlen]. by rewrite <- E1, <- E2.
Qed.

(** C3. The encoding is injective for a fixed root: for an absolute
    root, two distinct absolute filesystem paths, that is, two absolute
    paths that denote two locations (that differ after normalization),
    under the root or outside it, are encoded as two URL paths. *)
Theorem fileToImportPath_injective cwd root p1 p2 :
  isAbsolute root = true -> isAbsolute p1 = true -> isAbsolute p2 = true ->
  resolve cwd [p1] <> resolve cwd [p2] ->
  fileToImportPath cwd root p1 <> fileToImportPath cwd root p2.
Proof.
  intros Hr H1 H2 Hne E. apply Hne.
  change [p1] with ([] ++ [p1]). change [p2] with ([] ++ [p2]).
  rewrite !resolve_absolute by done.
  by rewrite (fileToImportPath_determines_norm cwd root p1 p2).
Qed.

Lemma fileToImportPath_injective_witness :
  fileToImportPath (js "/") (js "/home/app") (js "/home/app/a..b/c.js")
  <> fileToImportPath (js "/") (js "/home/app") (js "/home/a..b/c.js").
Proof.
  apply fileToImportPath_injective; try reflexivity.
  vm_compute. discriminate.
Defined.

(** Two spellings of one path have one encoding: [/r/a] and [/r/a/]
    normalize to the same path and are both encoded as [/a]. *)
Example fileToImportPath_spellings :
  resolve (js "/") [js "/r/a"] = resolve (js "/") [js "/r/a/"]
  /\ fileToImportPath (js "/") (js "/r") (js "/r/a")
     = fileToImportPath (js "/") (js "/r") (js "/r/a/").
Proof. split; reflexivity. Qed.

(** C4. Whatever the root and the path, no segment of the URL path
    returned by [fileToImportPath] is ['..']: the segments of the URL
    path are the segments of the relative path with each pair of dots
    rewritten, and a ['..'] segment is rewritten to the escape token. *)
Theorem fileToImportPath_no_dotdot_segment cwd root p :
  Forall (fun seg => seg <> dotdot) (split "/" (fileToImportPath cwd root p))
  /\ split "/" (fileToImportPath cwd root p)
     = [] :: map replace_dotdot
               (split "/" (relative cwd root (resolve cwd [root; p])))
  /\ replace_dotdot dotdot = dotdotEncoding.
Proof.
  assert (split "/" (fileToImportPath cwd root p)
          = [] :: map replace_dotdot
                    (split "/" (relative cwd root (resolve cwd [root; p])))) as E.
  { unfold fileToImportPath.
    change ("/" :: ?x) with ([] ++ "/" :: x). rewrite split_app.
    by rewrite split_replace_dotdot. }
  split; [|by split]. rewrite E. constructor; [done|].
  apply Forall_map, Forall_forall. intros seg _. apply replace_dotdot_not_dotdot.
Qed.

End CodecInjective.

(** ** The dev request handler *)

Section RequestHandler.
Import JsString Path Convertors Server.

Variables cwd root : str.
Variable SourceMap : Type.
Variable load : str -> option Loaded.
Variable transform : str -> str -> str -> option (Transformed SourceMap).
Variable genSourceMapString : SourceMap -> str.

Local Abbreviation pluginsMiddleware :=
  (pluginsMiddleware cwd root SourceMap load transform genSourceMapString).
Local Abbreviation serve_module :=
  (serve_module cwd root SourceMap load transform genSourceMapString).

(** After the decoding the handler ends with [next()] or a response. *)
Lemma serve_module_cases st ctx :
  startsWith (ctx_path ctx) (js ".") = false ->
  (serve_module st ctx).2 = ThrowsURIError
  \/ (serve_module st ctx).2 = Next
  \/ exists body type, (serve_module st ctx).2 = Responds body type.
Proof.
  intros E. unfold Server.serve_module. rewrite E.
  destruct (importPathToFile cwd root (ctx_path ctx)) as [f|]; [|by left].
  right.
  destruct (load f) as [l|]; [|by left].
  destruct (loaded_contents l) as [c|]; [|by left].
  destruct (transform f (loader l) c) as [t|]; [|by left].
  right. by do 2 eexists.
Qed.



(** C5, amended. An intercepted request is rejected with the error
    about import paths if and only if its path starts with the character
    ['.']; the state is left as it is. *)
Theorem invalid_specifier_spec st ctx :
  filter_request ctx = Intercepted ->
  (startsWith (ctx_path ctx) (js ".") = true ->
   pluginsMiddleware st ctx = (st, Throws (invalid_specifier_message ctx)))
  /\ (startsWith (ctx_path ctx) (js ".") = false ->
      forall message, (pluginsMiddleware st ctx).2 <> Throws message).
Proof.
  intros Hi. unfold Server.pluginsMiddleware. rewrite Hi. split.
  - intros E. unfold Server.serve_module. by rewrite E.
  - intros E message.
    destruct (serve_module_cases st ctx E) as [->|[->|(? & ? & ->)]]; done.
Qed.


(** A request that is not intercepted, or whose path does not decode,
    or does not start with ['/...'], changes nothing. *)
Lemma no_watch_without_prefix st ctx :
  startsWith (ctx_path ctx) ("/" :: dotdotEncoding) = false ->
  (pluginsMiddleware st ctx).1 = st.
Proof.
  intros E. unfold Server.pluginsMiddleware.
  destruct (filter_request ctx); [done|]. unfold Server.serve_module.
  destruct (startsWith (ctx_path ctx) (js ".")); [done|].
  destruct (importPathToFile cwd root (ctx_path ctx)) as [f|]; [|done].
  rewrite E. simpl.
  destruct (load f) as [l|]; [|done].
  destruct (loaded_contents l) as [c|]; [|done].
  by destruct (transform f (loader l) c) as [t|].
Qed.

End RequestHandler.

Section RequestHandlerExamples.
Import JsString Path Convertors Server.



Lemma invalid_specifier_spec_witness :
  (startsWith (js "./main.js") (js ".") = true ->
   plain_middleware (js "/r") initial (script_request (js "./main.js"))
   = (initial, Throws (invalid_specifier_message (script_request (js "./main.js")))))
  /\ (startsWith (js "./main.js") (js ".") = false ->
      forall message,
        (plain_middleware (js "/r") initial (script_request (js "./main.js"))).2
        <> Throws message).
Proof.
  apply (invalid_specifier_spec (js "/") (js "/r") unit (fun _ => None)
           (fun _ _ _ => None) (fun _ => []) initial
           (script_request (js "./main.js"))).
  reflexivity.
Defined.

(** C5 as stated fails for a path with a ['..'] segment that does not
    start with ['.']: the request is intercepted and no error is
    raised. *)
Lemma relative_segment_not_rejected :
  filter_request (any_request (js "/a/../b.js")) = Intercepted
  /\ dotdot ∈ split "/" (js "/a/../b.js")
  /\ plain_middleware (js "/r") initial (any_request (js "/a/../b.js"))
     = (initial, Next).
Proof. split; [reflexivity|]. split; [|reflexivity]. vm_compute. set_solver. Qed.



End RequestHandlerExamples.

(** ** Resolution of third-party imports *)

Section OnResolved.
Import JsString Path Convertors Server.

Variables cwd root : str.
Variable isNodeModule : str -> bool.
Variable WEB_MODULES_PATH : str.
Variable prebundle : PrebundleArgs -> Result (gmap str str).
Variable JSON_stringify : gmap str str -> str.

Local Abbreviation onResolved :=
  (onResolved cwd root isNodeModule WEB_MODULES_PATH prebundle JSON_stringify).
Local Abbreviation onResolved_start :=
  (onResolved_start cwd root isNodeModule WEB_MODULES_PATH).
Local Abbreviation prebundleArgs := (prebundleArgs cwd root WEB_MODULES_PATH).

(** A call for a node module that is not in the bundle map invokes
    [prebundle] and waits for it. *)
Lemma onResolved_start_unbundled st resolvedPath :
  isNodeModule resolvedPath = true ->
  truthy (bundled st (slash (relative cwd root resolvedPath))) = false ->
  onResolved_start st resolvedPath
  = (add_prebundleCall (prebundleArgs st) st,
     AwaitingPrebundle (slash (relative cwd root resolvedPath)) (prebundleArgs st)).
Proof.
  intros H1 H2. unfold Server.onResolved_start. by rewrite H1, H2.
Qed.

(** C8, amended. When [prebundle] fails with the reason [e] while a
    node module that is not in the bundle map is resolved, [onResolved]
    throws an error whose message is ['Cannot prebundle: '] followed by
    [e], and the bundle map is left as it is. *)
Theorem prebundle_failure_surfaces st resolvedPath e :
  isNodeModule resolvedPath = true ->
  truthy (bundled st (slash (relative cwd root resolvedPath))) = false ->
  prebundle (prebundleArgs st) = Thrown e ->
  (onResolved st resolvedPath).2 = Thrown (js "Cannot prebundle: " ++ e)
  /\ bundleMap (onResolved st resolvedPath).1 = bundleMap st.
Proof.
  intros H1 H2 H3. unfold Server.onResolved.
  rewrite onResolved_start_unbundled by done. simpl. by rewrite H3.
Qed.

(** Two calls for node modules that are not in the bundle map, the
    second made while the first waits: [prebundle] is invoked twice. *)
Lemma concurrent_calls_invoke_twice st path1 path2 :
  isNodeModule path1 = true -> isNodeModule path2 = true ->
  truthy (bundled st (slash (relative cwd root path1))) = false ->
  truthy (bundled st (slash (relative cwd root path2))) = false ->
  length (prebundleCalls
            (onResolved_concurrent cwd root isNodeModule WEB_MODULES_PATH
               prebundle JSON_stringify st path1 path2).1.1)
  = 2 + length (prebundleCalls st).
Proof.
  intros H1 H2 H3 H4. unfold onResolved_concurrent.
  rewrite (onResolved_start_unbundled st path1) by done.
  rewrite (onResolved_start_unbundled _ path2) by done.
  unfold onResolved_resume.
  destruct (prebundle (prebundleArgs st)) as [bm1|e1];
    destruct (prebundle (prebundleArgs (add_prebundleCall (prebundleArgs st) st)))
      as [bm2|e2];
    repeat (destruct (negb _)); simpl; rewrite !length_app; simpl; lia.
Qed.

End OnResolved.

Section OnResolvedExamples.
Import JsString Path Convertors Server.

Lemma prebundle_failure_surfaces_witness :
  (resolve_with failing_prebundle initial (js "/r/node_modules/foo/index.js")).2
  = Thrown (js "Cannot prebundle: " ++ js "Error: Build failed with 1 error")
  /\ bundleMap (resolve_with failing_prebundle initial
                  (js "/r/node_modules/foo/index.js")).1
     = bundleMap initial.
Proof.
  apply (prebundle_failure_surfaces (js "/") (js "/r") in_node_modules
           (js "web_modules") failing_prebundle (fun _ => js "{}")); reflexivity.
Defined.

(** C8 as stated fails: the message of the error does not name the
    package; the failures for two packages give the same error. *)
Lemma prebundle_error_omits_package :
  (resolve_with failing_prebundle initial (js "/r/node_modules/foo/index.js")).2
  = Thrown (js "Cannot prebundle: Error: Build failed with 1 error")
  /\ includes (js "Cannot prebundle: Error: Build failed with 1 error") (js "foo")
     = false
  /\ (resolve_with failing_prebundle initial (js "/r/node_modules/bar/index.js")).2
     = (resolve_with failing_prebundle initial (js "/r/node_modules/foo/index.js")).2.
Proof. repeat split. Qed.

(** C9 on the code. Two requests for the package [foo], not yet bundled,
    the second made while the first waits for the pre-bundler: the
    pre-bundler is invoked twice, once for each request, and each request
    is answered from the outcome of its own invocation. *)
Theorem concurrent_requests_prebundle_twice :
  let '(st, r1, r2) :=
    onResolved_concurrent (js "/") (js "/r") in_node_modules (js "web_modules")
      foo_prebundle (fun _ => js "{}") initial
      (js "/r/node_modules/foo/index.js") (js "/r/node_modules/foo/index.js") in
  length (prebundleCalls st) = 2
  /\ r1 = Some (Ok (Some (Str (js "web_modules/foo.js"))))
  /\ r2 = Some (Ok (Some (Str (js "web_modules/foo.js")))).
Proof. vm_compute. repeat split. Qed.

(** A node module whose relative path is the name of a property that
    the bundle map inherits is answered with that property, and the
    pre-bundler is not invoked: with the root [/r/node_modules] the
    package directory [constructor] has the relative path
    [constructor]. *)
Example onResolved_inherited_property :
  let st := set_bundleMap (Some ∅) initial in
  onResolved (js "/") (js "/r/node_modules") in_node_modules (js "web_modules")
    foo_prebundle (fun _ => js "{}") st (js "/r/node_modules/constructor")
  = (st, Ok (Some (Inherited (js "constructor")))).
Proof. reflexivity. Qed.

End OnResolvedExamples.

(** ** The HMR channel *)

Section Hmr.
Import JsString Path Convertors Server.

Variables cwd root : str.
Variable HMR_SERVER_NAME : str.

Local Abbreviation message_listener := (message_listener cwd root).
Local Abbreviation call_listener := (call_listener cwd root).
Local Abbreviation call_all := (call_all cwd root).
Local Abbreviation emit := (emit cwd root).
Local Abbreviation handle := (handle cwd root HMR_SERVER_NAME).
Local Abbreviation run := (run cwd root HMR_SERVER_NAME).

(** What the ['message'] listener does when it is called with a
    [hotAccept] message whose path decodes: the node of the decoded path
    has both flags set. *)
Lemma message_listener_marks st path file :
  importPathToFile cwd root path = Some file ->
  exists st' n,
    message_listener st {| type := js "hotAccept"; path := path |} = Some st'
    /\ nodes st' !! file = Some n
    /\ hasHmrAccept n = true /\ isHmrEnabled n = true.
Proof.
  intros Hf. unfold Server.message_listener.
  rewrite bool_decide_eq_true_2 by done. simpl. rewrite Hf. simpl.
  destruct (ensureEntry (nodes st) file) as [nodes' entry].
  do 2 eexists. split; [done|]. simpl. by rewrite lookup_insert_eq.
Qed.

Lemma listeners_of_socket st id event :
  registered_on_wss st -> listeners_of (Socket id) event st = [].
Proof.
  unfold registered_on_wss, listeners_of.
  induction 1 as [|r l Hr _ IH]; [done|]. simpl.
  case_bool_decide as E; [|done].
  destruct Hr as [-> | [-> | ->]]; simpl in E; discriminate.
Qed.

Lemma listeners_of_connection st :
  registered_on_wss st ->
  Forall (fun l => l = ConnectionListener) (listeners_of Wss (js "connection") st).
Proof.
  unfold registered_on_wss, listeners_of.
  induction 1 as [|r l Hr _ IH]; [done|]. simpl.
  case_bool_decide as E; [|done].
  apply Forall_cons_2; [|done].
  destruct Hr as [-> | [-> | ->]]; simpl in E |- *; [done|discriminate..].
Qed.

(** The ['connection'] listeners leave the graph alone and register on
    [wss] only. *)
Lemma call_connection_listeners ls id st :
  Forall (fun l => l = ConnectionListener) ls ->
  registered_on_wss st ->
  registered_on_wss (call_all ls (ASocket id) st)
  /\ nodes (call_all ls (ASocket id) st) = nodes st.
Proof.
  intros Hls. revert st. induction Hls as [|l ls -> _ IH]; intros st Hst; [done|].
  simpl. destruct (IH (add_listener Wss (js "message") MessageListener
                         (add_sent id Connected st))) as [H1 H2]; [|done].
  unfold registered_on_wss. simpl. apply Forall_app. split; [done|].
  apply Forall_cons_2; [by right; right|]. apply Forall_nil_2.
Qed.

Lemma handle_keeps_graph st ev :
  registered_on_wss st ->
  registered_on_wss (handle st ev) /\ nodes (handle st ev) = nodes st.
Proof.
  intros Hst. destruct ev as [protocol id|id data]; simpl.
  - case_bool_decide; [|done]. unfold Server.emit.
    by apply call_connection_listeners; [apply listeners_of_connection|].
  - unfold Server.emit. by rewrite listeners_of_socket.
Qed.

Lemma run_keeps_graph st evs :
  registered_on_wss st ->
  nodes (run st evs) = nodes st.
Proof.
  revert st. induction evs as [|ev evs IH]; intros st Hst; [done|].
  destruct (handle_keeps_graph st ev Hst) as [H1 H2].
  change (run st (ev :: evs)) with (run (handle st ev) evs).
  by rewrite IH.
Qed.

(** C1 on the code. The ['message'] listener is registered on the
    server object [wss], which emits no ['message'] event; a message of
    a client is emitted on its socket, where nothing listens. Whatever
    clients connect and whatever they send, the graph stays as it was
    when the middleware was installed: no node is created or marked. *)
Theorem hot_accept_never_reaches_graph graph evs :
  nodes (run (hmr_install (set_nodes (fun _ => graph) initial)) evs) = graph.
Proof.
  rewrite run_keeps_graph; [done|].
  unfold registered_on_wss. simpl.
  apply Forall_cons_2; [by left|]. apply Forall_cons_2; [by right; left|].
  apply Forall_nil_2.
Qed.

End Hmr.

(** ** Plain objects *)

Section ObjectFacts.

Lemma Object_set_lookup {V} (obj : gmap str V) key value k :
  Object_set obj key value !! k
  = if bool_decide (key = k) && negb (bool_decide (key = proto_name))
    then Some value else obj !! k.
Proof.
  unfold Object_set. repeat case_bool_decide; subst; simpl; try done.
  - by rewrite lookup_insert_eq.
  - by rewrite lookup_insert_ne.
Qed.

Lemma fold_Object_set_lookup {V} (entries : list (str * V)) obj k v :
  fold_left (fun o kv => Object_set o kv.1 kv.2) entries obj !! k = Some v ->
  ((k, v) ∈ entries /\ k <> proto_name) \/ obj !! k = Some v.
Proof.
  revert obj. induction entries as [|[k' v'] l IH]; intros obj; simpl; [auto|].
  intros [[? ?]|Hm]%IH; [set_solver|].
  rewrite Object_set_lookup in Hm.
  repeat case_bool_decide; simpl in Hm; subst; try (by right).
  injection Hm as ->. left. set_solver.
Qed.

Lemma fold_Object_set_is_Some {V} (entries : list (str * V)) obj k :
  k <> proto_name ->
  (exists v, (k, v) ∈ entries) \/ is_Some (obj !! k) ->
  is_Some (fold_left (fun o kv => Object_set o kv.1 kv.2) entries obj !! k).
Proof.
  intros Hk. revert obj.
  induction entries as [|[k' v'] l IH]; intros obj; simpl.
  - intros [[v ?]|?]; [set_solver|done].
  - intros Hin. apply IH. rewrite Object_set_lookup.
    destruct Hin as [[v Hin]|Hin].
    + apply elem_of_cons in Hin as [[= <- <-]|?]; [|left; by eexists].
      right. rewrite bool_decide_true, (bool_decide_false _ Hk) by done.
      by eexists.
    + right. by destruct (_ && _).
Qed.

(** Every value filed by [fromEntries] comes from an entry. *)
Lemma fromEntries_lookup {V} (entries : list (str * V)) k v :
  fromEntries entries !! k = Some v -> (k, v) ∈ entries.
Proof.
  unfold fromEntries. intros [[? ?]|Hm]%fold_Object_set_lookup; [done|].
  by rewrite lookup_empty in Hm.
Qed.

(** Nothing is filed under [__proto__]. *)
Lemma fromEntries_proto {V} (entries : list (str * V)) :
  fromEntries entries !! proto_name = None.
Proof.
  destruct (fromEntries entries !! proto_name) as [v|] eqn:E; [|done].
  unfold fromEntries in E.
  apply fold_Object_set_lookup in E as [[? ?]|Hm]; [done|].
  by rewrite lookup_empty in Hm.
Qed.

(** An entry under another key is filed. *)
Lemma fromEntries_is_Some {V} (entries : list (str * V)) k v :
  k <> proto_name -> (k, v) ∈ entries -> is_Some (fromEntries entries !! k).
Proof.
  intros Hk Hin. unfold fromEntries.
  apply fold_Object_set_is_Some; [done|]. left. by eexists.
Qed.

(** An entry whose value is shared by all entries is found under its
    key. *)
Lemma fromEntries_constant {V} (entries : list (str * V)) k v :
  (forall kv, kv ∈ entries -> kv.2 = v) ->
  k <> proto_name ->
  (k, v) ∈ entries -> fromEntries entries !! k = Some v.
Proof.
  intros Hall Hk Hin.
  destruct (fromEntries_is_Some entries k v Hk Hin) as [v' Hv'].
  rewrite Hv'. f_equal.
  apply fromEntries_lookup in Hv'. by apply (Hall (k, v')).
Qed.

(** Reading a name that the object does not have gives the member of
    [Object.prototype] of that name, if there is one. *)
Example Object_get_samples :
  Object_get {[ js "a" := js "b" ]} (js "a") = Some (Str (js "b"))
  /\ Object_get {[ js "a" := js "b" ]} (js "c") = None
  /\ Object_get {[ js "a" := js "b" ]} (js "constructor")
     = Some (Inherited (js "constructor"))
  /\ Object_get {[ js "toString" := js "b" ]} (js "toString")
     = Some (Str (js "b")).
Proof. repeat split. Qed.

End ObjectFacts.

(** ** The CommonJS analysis of the pre-bundle metafile *)

Section AnalysisFacts.
Import JsString Path Esbuild.

Variable osAgnosticPath : str -> str -> str.
Variable cwd : str.

Local Abbreviation analysis_entry := (analysis_entry osAgnosticPath cwd).
Local Abbreviation metafileToAnalysis := (metafileToAnalysis osAgnosticPath cwd).
Local Abbreviation entry_of := (entry_of osAgnosticPath cwd).

(** The key under which an output is filed. *)
Local Abbreviation key root esbuildCwd output :=
  (osAgnosticPath (resolve cwd [esbuildCwd; output]) root).

Lemma elem_of_Object_keys {V} (o : gmap str V) k :
  k ∈ Object_keys o <-> is_Some (o !! k).
Proof.
  unfold Object_keys. rewrite list_elem_of_fmap. split.
  - intros ([k' v] & -> & Hin%elem_of_map_to_list). by eexists.
  - intros [v Hv]. exists (k, v). split; [done|]. by apply elem_of_map_to_list.
Qed.

Lemma map_result_ok {A B} (f : A -> Result B) (g : A -> B) l :
  (forall a, a ∈ l -> f a = Ok (g a)) -> map_result f l = Ok (map g l).
Proof.
  induction l as [|a l IH]; intros H; [done|].
  simpl. rewrite (H a) by set_solver. simpl.
  rewrite IH by set_solver. done.
Qed.

Lemma analysis_entry_ok meta root esbuildCwd output :
  output ∈ Object_keys (outputs meta) ->
  analysis_entry meta root esbuildCwd output
  = Ok (entry_of meta root esbuildCwd output).
Proof.
  intros [info Hinfo]%elem_of_Object_keys.
  unfold Esbuild.analysis_entry, entry_of. rewrite Hinfo.
  destruct (startsWith (basename output) (js "chunk.")); [done|].
  by destruct (exports_only_default info).
Qed.

Lemma exports_only_default_spec info :
  exports_only_default info = true <-> exports info = Some [js "default"].
Proof.
  unfold exports_only_default.
  destruct (exports info) as [[|e [|e' l]]|]; try (split; done).
  rewrite bool_decide_eq_true. split; [by intros ->|by intros [= ->]].
Qed.

(** C10, amended. The analysis never throws, and a key is in its
    [isCommonjs] map, with the value [true], if and only if it is not
    [__proto__] and it is the key of an output of the metafile whose
    basename does not start with ['chunk.'] and whose export list is
    exactly [['default']]; the map holds nothing else. *)
Theorem metafileToAnalysis_isCommonjs meta root esbuildCwd :
  exists analysis,
    metafileToAnalysis meta root esbuildCwd = Ok analysis
    /\ forall k v,
         isCommonjs analysis !! k = Some v <->
         v = true
         /\ k <> proto_name
         /\ exists output info,
              outputs meta !! output = Some info
              /\ startsWith (basename output) (js "chunk.") = false
              /\ exports info = Some [js "default"]
              /\ k = key root esbuildCwd output.
Proof.
  unfold Esbuild.metafileToAnalysis.
  rewrite (map_result_ok _ (entry_of meta root esbuildCwd))
    by (intros; by apply analysis_entry_ok).
  simpl. eexists. split; [done|]. simpl. intros k v.
  set (entries := omap id (map (entry_of meta root esbuildCwd)
                               (Object_keys (outputs meta)))).
  assert (forall k v, (k, v) ∈ entries <->
            v = true
            /\ exists output info,
                 outputs meta !! output = Some info
                 /\ startsWith (basename output) (js "chunk.") = false
                 /\ exports info = Some [js "default"]
                 /\ k = key root esbuildCwd output) as Hentries.
  { intros k' v'. unfold entries. rewrite list_elem_of_omap. split.
    - intros (e & He & Hid). simpl in Hid. subst e.
      apply list_elem_of_fmap in He as (output & He & Hout).
      apply elem_of_Object_keys in Hout as [info Hinfo].
      unfold entry_of in He. rewrite Hinfo in He.
      destruct (startsWith (basename output) (js "chunk.")) eqn:E1; [done|].
      destruct (exports_only_default info) eqn:E2; [|done].
      injection He as -> ->. split; [done|].
      exists output, info. by rewrite <- exports_only_default_spec.
    - intros (-> & output & info & Hinfo & E1 & E2 & ->).
      exists (Some (key root esbuildCwd output, true)). split; [|done].
      apply list_elem_of_fmap. exists output. split.
      + unfold entry_of. rewrite Hinfo, E1.
        by rewrite (proj2 (exports_only_default_spec info)).
      + apply elem_of_Object_keys. by eexists. }
  split.
  - intros Hk. split_and!.
    + by apply fromEntries_lookup, Hentries in Hk as [-> _].
    + intros ->. by rewrite fromEntries_proto in Hk.
    + by apply fromEntries_lookup, Hentries in Hk as [_ ?].
  - intros (-> & Hne & Hout).
    apply fromEntries_constant; [|done|by apply Hentries].
    intros [k' v'] Hkv. by apply Hentries in Hkv as [-> _].
Qed.

End AnalysisFacts.

Section AnalysisExamples.
Import JsString Path Esbuild.

Lemma metafileToAnalysis_isCommonjs_witness :
  exists analysis,
    metafileToAnalysis relative_key (js "/") sample_meta (js "/r") (js "/r")
    = Ok analysis
    /\ isCommonjs analysis !! js "web_modules/foo.js" = Some true.
Proof.
  destruct (metafileToAnalysis_isCommonjs relative_key (js "/") sample_meta
              (js "/r") (js "/r")) as (analysis & Ha & Hspec).
  exists analysis. split; [exact Ha|]. apply Hspec.
  split; [reflexivity|]. split; [discriminate|].
  exists (js "web_modules/foo.js"),
         {| bytes := 120; inputs := ∅; exports := Some [js "default"] |}.
  repeat split; reflexivity.
Defined.

(** On the sample only the entry point [foo] is filed: the chunk and the
    entry point with named exports are absent. *)
Example metafileToAnalysis_sample :
  metafileToAnalysis relative_key (js "/") sample_meta (js "/r") (js "/r")
  = Ok {| isCommonjs := {[ js "web_modules/foo.js" := true ]} |}.
Proof. vm_compute. reflexivity. Qed.

(** C10 as stated fails: an output whose key is [__proto__] is not a
    chunk and exports only [default], and is absent from the map. *)
Lemma metafileToAnalysis_drops_proto :
  outputs proto_meta !! js "__proto__"
  = Some {| bytes := 120; inputs := ∅; exports := Some [js "default"] |}
  /\ startsWith (basename (js "__proto__")) (js "chunk.") = false
  /\ relative_key (resolve (js "/") [js "/r"; js "__proto__"]) (js "/r")
     = js "__proto__"
  /\ metafileToAnalysis relative_key (js "/") proto_meta (js "/r") (js "/r")
     = Ok {| isCommonjs := {[ js "web_modules/foo.js" := true ]} |}.
Proof. repeat split; vm_compute; reflexivity. Qed.

End AnalysisExamples.

(** * Further properties *)

(** ** The path codec *)

Section CodecFurther.
Import JsString Path Convertors.

(** X1. The decoder's replacement undoes the encoder's on every string,
    whatever the runs of dots in it: [s.replace(/\.\./g, '...')] followed
    by [.replace(/\.\.\./g, '..')] gives [s] back. *)
Theorem escape_roundtrip s : replace_dotdotdot (replace_dotdot s) = s.
Proof. apply replace_roundtrip. Qed.

Lemma replace_dotdot_id s : includes s (js "..") = false -> replace_dotdot s = s.
Proof.
  induction s as [|a s IH]; [done|].
  simpl includes. intros [E1 E2]%orb_false_elim.
  rewrite replace_dotdot_cons by done. by rewrite IH.
Qed.

Lemma includes_dotdot_dotdotdot s :
  includes s (js "..") = false -> includes s (js "...") = false.
Proof.
  induction s as [|a s IH]; [done|].
  simpl includes. intros [E1 E2]%orb_false_elim.
  apply orb_false_intro; [|by apply IH].
  clear IH E2. destruct s as [|b [|c t]]; simpl in *; try done;
    repeat case_bool_decide; simpl in *; done.
Qed.

Lemma strip_common_not_prefix (l1 l2 : list str) :
  ~ (l1 `prefix_of` l2) -> (strip_common l1 l2).1 <> [].
Proof.
  intros Hn E. apply Hn.
  destruct (strip_common_spec l1 l2) as (common & E1 & E2).
  rewrite E in E1. rewrite app_nil_r in E1. subst common.
  by eexists.
Qed.

Lemma escape_prefix_of_outside cwd root p :
  isAbsolute root = true -> isAbsolute p = true ->
  ~ (segments (resolve cwd [root]) `prefix_of` segments (resolve cwd [p])) ->
  startsWith (fileToImportPath cwd root p) ("/" :: dotdotEncoding) = true.
Proof.
  intros Hr Hp Hn. rewrite fileToImportPath_absolute by done.
  revert Hn. change [p] with ([] ++ [p]). change [root] with ([] ++ [root]).
  rewrite !(resolve_absolute cwd []) by done.
  rewrite !segments_abs_path by apply norm_normal.
  intros Hn%strip_common_not_prefix. unfold relative_segments.
  destruct ((strip_common (norm root) (norm p)).1) as [|u up]; [done|].
  simpl map. rewrite replace_dotdot_join. simpl map.
  destruct (map replace_dotdot (map (fun _ => dotdot) up
                                ++ (strip_common (norm root) (norm p)).2));
    reflexivity.
Qed.

(** X2. A path outside the root is encoded with the escape token in front:
    for an absolute [root] and an absolute [p] whose segments do not
    start with those of [root], the URL path starts with ['/...']. *)
Theorem outside_root_has_escape_prefix cwd root p :
  isAbsolute root = true -> isAbsolute p = true ->
  ~ (segments (resolve cwd [root]) `prefix_of` segments (resolve cwd [p])) ->
  startsWith (fileToImportPath cwd root p) ("/" :: dotdotEncoding) = true.
Proof. apply escape_prefix_of_outside. Qed.

Lemma outside_root_has_escape_prefix_witness :
  startsWith (fileToImportPath (js "/") (js "/home/app") (js "/home/lib/x.js"))
             ("/" :: dotdotEncoding) = true.
Proof.
  apply outside_root_has_escape_prefix; [reflexivity..|].
  intros [k Hk]. vm_compute in Hk. discriminate.
Defined.

Lemma plain_segment_spec seg :
  plain_segment seg = true ->
  normal_seg seg
  /\ includes seg (js "..") = false
  /\ ("%" ∉ seg) /\ ("?" ∉ seg) /\ ("#" ∉ seg).
Proof.
  unfold plain_segment. rewrite !andb_true_iff, !negb_true_iff.
  rewrite !bool_decide_eq_false.
  intros ((((((H1 & H2) & H3) & H4) & H5) & H6) & H7).
  repeat split; try done; try by apply includes_char.
  intros ->. done.
Qed.

Lemma plain_segments_normal segs :
  forallb plain_segment segs = true -> Forall normal_seg segs.
Proof.
  rewrite forallb_forall, Forall_forall. intros H x Hx.
  by apply plain_segment_spec, H, list_elem_of_In.
Qed.

Lemma plain_segments_fixed segs :
  forallb plain_segment segs = true ->
  map replace_dotdot segs = segs /\ map replace_dotdotdot segs = segs.
Proof.
  rewrite forallb_forall. intros H. split.
  - rewrite <- (map_id segs) at 2. apply map_ext_in. intros x Hx.
    apply replace_dotdot_id. by apply plain_segment_spec, H.
  - rewrite <- (map_id segs) at 2. apply map_ext_in. intros x Hx.
    apply replace_dotdotdot_id, includes_dotdot_dotdotdot.
    by apply plain_segment_spec, H.
Qed.

(** X3. A path under the root whose names below the root are plain is
    encoded as ['/'] followed by its path relative to the root, as it
    is. *)
Theorem under_root_encoding cwd root p rest :
  isAbsolute root = true -> isAbsolute p = true ->
  segments (resolve cwd [p]) = segments (resolve cwd [root]) ++ rest ->
  forallb plain_segment rest = true ->
  fileToImportPath cwd root p = "/" :: join "/" rest.
Proof.
  intros Hr Hp E Hrest. rewrite fileToImportPath_absolute by done.
  revert E. change [p] with ([] ++ [p]). change [root] with ([] ++ [root]).
  rewrite !(resolve_absolute cwd []) by done.
  rewrite !segments_abs_path by apply norm_normal.
  intros E. unfold relative_segments. rewrite E, strip_common_prefix.
  simpl. rewrite replace_dotdot_join.
  by rewrite (proj1 (plain_segments_fixed rest Hrest)).
Qed.

Lemma under_root_encoding_witness :
  fileToImportPath (js "/") (js "/home/app") (js "/home/app/src/./main.js")
  = "/" :: join "/" [js "src"; js "main.js"].
Proof. apply under_root_encoding; reflexivity. Defined.

End CodecFurther.

Section CodecDecoding.
Import JsString Path Convertors.

Lemma plain_url_chars segs x :
  forallb plain_segment segs = true ->
  x ∈ "/" :: join "/" segs ->
  x <> "%" /\ x <> "?" /\ x <> "#".
Proof.
  rewrite forallb_forall. intros H [->|Hx]%elem_of_cons; [done|].
  apply elem_of_join in Hx as [->|(seg & Hseg & Hx)]; [done|].
  apply list_elem_of_In, H, plain_segment_spec in Hseg
    as (_ & _ & H1 & H2 & H3).
  repeat split; by intros ->.
Qed.

Lemma join_not_absolute segs :
  Forall normal_seg segs -> isAbsolute (join "/" segs) = false.
Proof.
  intros Hn. destruct segs as [|s l]; [done|].
  inversion Hn as [|? ? (Hs1 & _ & _ & Hs4)]; subst.
  destruct s as [|a s]; [done|]. unfold isAbsolute.
  destruct l; simpl; rewrite bool_decide_eq_false_2; set_solver.
Qed.

(** [path.resolve(root, request)] for a request made of names. *)
Lemma resolve_root_names cwd root segs :
  isAbsolute root = true -> Forall normal_seg segs ->
  resolve cwd [root; join "/" segs] = abs_path (norm root ++ segs).
Proof.
  intros Hr Hn. rewrite resolve_root_relative by auto using join_not_absolute.
  f_equal. destruct segs as [|s l].
  - change (join "/" []) with (@nil ascii). change (split "/" []) with [@nil ascii].
    cbn [fold_left]. rewrite normalize_step_empty.
    by rewrite app_nil_r, rev_involutive.
  - rewrite split_join; [|done|by apply normal_seg_no_sep].
    rewrite fold_normal by done.
    by rewrite rev_app_distr, !rev_involutive.
Qed.

Lemma importPathToFile_plain cwd root segs :
  isAbsolute root = true ->
  includes root dotdotEncoding = false ->
  forallb plain_segment segs = true ->
  importPathToFile cwd root ("/" :: join "/" segs)
  = Some (abs_path (norm root ++ segs)).
Proof.
  intros Hr Hroot Hsegs.
  assert (decodeURIComponent ("/" :: join "/" segs) = Some ("/" :: join "/" segs))
    as Hd.
  { apply decode_no_percent. intros Hx.
    by destruct (plain_url_chars segs "%" Hsegs Hx) as (? & _). }
  assert (cleanUrl ("/" :: join "/" segs) = "/" :: join "/" segs) as Hc.
  { apply cleanUrl_id; intros Hx.
    - by destruct (plain_url_chars segs "?" Hsegs Hx) as (_ & ? & _).
    - by destruct (plain_url_chars segs "#" Hsegs Hx) as (_ & _ & ?). }
  unfold importPathToFile. rewrite Hd. cbn [mbind option_bind]. rewrite Hc.
  change (startsWith ("/" :: join "/" segs) (js "/")) with true. cbv iota.
  change (drop 1 ("/" :: join "/" segs)) with (join "/" segs).
  rewrite resolve_root_names by auto using plain_segments_normal.
  f_equal. unfold abs_path. rewrite replace_dotdotdot_cons by done.
  rewrite replace_dotdotdot_join, map_app. do 2 f_equal. f_equal.
  - rewrite <- (map_id (norm root)) at 2. apply map_ext_in.
    intros seg Hseg%list_elem_of_In%elem_of_norm.
    by apply (root_segments_fixed root).
  - by apply plain_segments_fixed.
Qed.

(** X4. A URL path made of plain names is decoded to the normal form of the
    root followed by those names. *)
Theorem plain_url_decoding cwd root segs :
  isAbsolute root = true ->
  includes root dotdotEncoding = false ->
  forallb plain_segment segs = true ->
  importPathToFile cwd root ("/" :: join "/" segs)
  = Some (abs_path (segments (resolve cwd [root]) ++ segs)).
Proof.
  intros Hr Hroot Hsegs. rewrite importPathToFile_plain by done.
  change [root] with ([] ++ [root]). rewrite resolve_absolute by done.
  by rewrite segments_abs_path by apply norm_normal.
Qed.

Lemma plain_url_decoding_witness :
  importPathToFile (js "/") (js "/home/app/") (js "/src/main.js")
  = Some (abs_path (segments (resolve (js "/") [js "/home/app/"])
                    ++ [js "src"; js "main.js"])).
Proof.
  apply (plain_url_decoding (js "/") (js "/home/app/") [js "src"; js "main.js"]);
    reflexivity.
Defined.

(** X5. Encoding undoes decoding on a URL path made of plain names: the file
    that the URL path denotes is encoded as that URL path. *)
Theorem url_roundtrip cwd root segs :
  isAbsolute root = true ->
  includes root dotdotEncoding = false ->
  forallb plain_segment segs = true ->
  fileToImportPath cwd root <$> importPathToFile cwd root ("/" :: join "/" segs)
  = Some ("/" :: join "/" segs).
Proof.
  intros Hr Hroot Hsegs. rewrite importPathToFile_plain by done.
  simpl. f_equal. rewrite fileToImportPath_absolute by done.
  unfold relative_segments.
  rewrite norm_abs_path.
  - rewrite strip_common_prefix. simpl. rewrite replace_dotdot_join.
    by rewrite (proj1 (plain_segments_fixed segs Hsegs)).
  - apply Forall_app. split; [apply norm_normal|by apply plain_segments_normal].
Qed.

Lemma url_roundtrip_witness :
  fileToImportPath (js "/") (js "/home/app")
    <$> importPathToFile (js "/") (js "/home/app") ("/" :: join "/" [js "src"; js "a.b.js"])
  = Some ("/" :: join "/" [js "src"; js "a.b.js"]).
Proof. apply url_roundtrip; reflexivity. Defined.

(** [path.resolve(root, x)] is absolute when [root] is. *)
Lemma resolve_root_absolute cwd root x :
  isAbsolute root = true -> isAbsolute (resolve cwd [root; x]) = true.
Proof.
  intros Hr. unfold resolve. simpl rev. simpl app.
  destruct (isAbsolute_cons root Hr) as [t ->].
  remember ("/" :: t) as r. simpl resolve_loop.
  case_bool_decide.
  - rewrite bool_decide_eq_false_2 by (by subst r). by rewrite Hr.
  - destruct (isAbsolute x) eqn:Hx; [done|].
    rewrite bool_decide_eq_false_2 by (by subst r). by rewrite Hr.
Qed.

(** X6. With an absolute root the decoder returns absolute paths only,
    whatever the request. *)
Theorem importPathToFile_absolute cwd root request file :
  isAbsolute root = true ->
  importPathToFile cwd root request = Some file ->
  isAbsolute file = true.
Proof.
  intros Hr. unfold importPathToFile.
  destruct (decodeURIComponent request) as [r|]; [|done].
  cbn [mbind option_bind]. cbv zeta.
  set (x := if startsWith (cleanUrl r) (js "/") then drop 1 (cleanUrl r)
            else cleanUrl r).
  pose proof (resolve_root_absolute cwd root x Hr) as Ha.
  apply isAbsolute_cons in Ha as [t Ht]. rewrite Ht.
  rewrite replace_dotdotdot_cons by done. by intros [= <-].
Qed.

Lemma importPathToFile_absolute_witness :
  isAbsolute (js "/r/b c") = true.
Proof.
  apply (importPathToFile_absolute (js "/") (js "/r") (js "a/../b%20c?x=1#y"));
    reflexivity.
Defined.

End CodecDecoding.

Section CodecQuery.
Import JsString Path Convertors.

Lemma hex_digit_query : hex_digit "?" = None.
Proof. reflexivity. Qed.

Lemma hex_digit_hash : hex_digit "#" = None.
Proof. reflexivity. Qed.

(** The percent decoding of a string cut at a character that is neither
    ['%'] nor a hexadecimal digit: both parts are decoded, each on its
    own. *)
Lemma decode_from_cut c pending need a b :
  c <> "%" -> hex_digit c = None ->
  decode_from pending need (a ++ c :: b)
  = match decode_from pending need a with
    | Some a' => (fun b' => a' ++ c :: b') <$> decode_from [] 0 b
    | None => None
    end.
Proof.
  intros Hc Hh. remember (length a) as n eqn:Hn. revert a pending need Hn.
  induction n as [n IH] using lt_wf_ind. intros a pending need ->.
  destruct a as [|x a].
  { simpl. rewrite bool_decide_eq_false_2 by done.
    destruct need; [|done]. by destruct (decode_from [] 0 b). }
  simpl. case_bool_decide as Hx.
  - destruct a as [|h [|l rest]].
    + simpl. destruct b as [|b0 b]; [done|]. by rewrite Hh.
    + simpl. rewrite Hh. by destruct (hex_digit h).
    + simpl. destruct (hex_digit h) as [hv|]; [|done].
      destruct (hex_digit l) as [lv|]; [|done].
      destruct need as [|need'].
      * destruct (16 * hv + lv <? 128)%N.
        -- rewrite (IH (length rest)) by (simpl; lia || done).
           destruct (decode_from [] 0 rest); [|done]. simpl.
           by destruct (decode_from [] 0 b).
        -- destruct (utf8_continuations (16 * hv + lv)); [|done].
           by rewrite (IH (length rest)) by (simpl; lia || done).
      * destruct (is_continuation (16 * hv + lv)); [|done].
        destruct need' as [|need''].
        -- destruct (utf8_valid (pending ++ [(16 * hv + lv)%N])); [|done].
           rewrite (IH (length rest)) by (simpl; lia || done).
           destruct (decode_from [] 0 rest); [|done]. simpl.
           destruct (decode_from [] 0 b); [|done]. simpl.
           by rewrite <- app_assoc.
        -- by rewrite (IH (length rest)) by (simpl; lia || done).
  - destruct need; [|done].
    rewrite (IH (length a)) by (simpl; lia || done).
    destruct (decode_from [] 0 a); [|done]. simpl.
    by destruct (decode_from [] 0 b).
Qed.

Lemma cleanUrl_cut c a b :
  c = "?" \/ c = "#" -> cleanUrl (a ++ c :: b) = cleanUrl a.
Proof.
  intros Hc. induction a as [|x a IH]; simpl.
  - by destruct Hc as [-> | ->].
  - by rewrite IH.
Qed.

(** X7. The decoder drops the query and the hash of a request: what follows
    the first ['?'] or ['#'] does not show in the result. It is still
    percent-decoded first, so that a malformed escape in the part that is
    dropped makes the decoder throw. *)
Theorem importPathToFile_drops_query cwd root request c rest :
  c = "?" \/ c = "#" ->
  importPathToFile cwd root (request ++ c :: rest)
  = match decodeURIComponent rest with
    | Some _ => importPathToFile cwd root request
    | None => None
    end.
Proof.
  intros Hc. unfold importPathToFile, decodeURIComponent.
  rewrite (decode_from_cut c) by (by destruct Hc as [-> | ->]).
  destruct (decode_from [] 0 request) as [r|]; [|by destruct (decode_from [] 0 rest)].
  destruct (decode_from [] 0 rest) as [q|]; [|done].
  cbn [fmap option_fmap option_map mbind option_bind].
  by rewrite cleanUrl_cut.
Qed.

Lemma importPathToFile_drops_query_witness :
  importPathToFile (js "/") (js "/r") (js "/src/a.js" ++ "?" :: js "import&t=100%")
  = match decodeURIComponent (js "import&t=100%") with
    | Some _ => importPathToFile (js "/") (js "/r") (js "/src/a.js")
    | None => None
    end.
Proof. apply importPathToFile_drops_query. by left. Defined.

End CodecQuery.

Section RequestFurther.
Import JsString Path Convertors Server.

Variables cwd root : str.
Variable SourceMap : Type.
Variable load : str -> option Loaded.
Variable transform : str -> str -> str -> option (Transformed SourceMap).
Variable genSourceMapString : SourceMap -> str.

Local Abbreviation pluginsMiddleware :=
  (pluginsMiddleware cwd root SourceMap load transform genSourceMapString).

Lemma importPathToFile_None request :
  importPathToFile cwd root request = None <-> decodeURIComponent request = None.
Proof.
  unfold importPathToFile. by destruct (decodeURIComponent request).
Qed.

(** X8. An intercepted request whose path does not start with ['.'] makes
    the handler throw a [URIError] exactly when the path has a malformed
    percent escape; the state is then left as it is, and the request is
    neither answered nor passed on. *)
Theorem malformed_escape_throws st ctx :
  filter_request ctx = Intercepted ->
  startsWith (ctx_path ctx) (js ".") = false ->
  ((pluginsMiddleware st ctx).2 = ThrowsURIError
   <-> decodeURIComponent (ctx_path ctx) = None)
  /\ (decodeURIComponent (ctx_path ctx) = None ->
      pluginsMiddleware st ctx = (st, ThrowsURIError)).
Proof.
  intros Hi Hd. unfold Server.pluginsMiddleware, serve_module. rewrite Hi, Hd.
  rewrite <- importPathToFile_None.
  destruct (importPathToFile cwd root (ctx_path ctx)) as [file|]; [|done].
  split; [|done]. split; [|done].
  destruct (load file) as [l|]; [|done].
  destruct (loaded_contents l) as [c|]; [|done].
  by destruct (transform file (loader l) c).
Qed.

End RequestFurther.

Section RequestFurtherExamples.
Import JsString Path Convertors Server.

Lemma malformed_escape_throws_witness :
  ((plain_middleware (js "/r") initial (script_request (js "/src/100%.js"))).2
   = ThrowsURIError
   <-> decodeURIComponent (js "/src/100%.js") = None)
  /\ (decodeURIComponent (js "/src/100%.js") = None ->
      plain_middleware (js "/r") initial (script_request (js "/src/100%.js"))
      = (initial, ThrowsURIError)).
Proof.
  apply (malformed_escape_throws (js "/") (js "/r") unit (fun _ => None)
           (fun _ _ _ => None) (fun _ => []) initial
           (script_request (js "/src/100%.js"))); reflexivity.
Defined.

End RequestFurtherExamples.

(** ** The server *)

Section ServerFurther.
Import JsString Path Convertors Server.

Variables cwd root : str.
Variable isNodeModule : str -> bool.
Variable WEB_MODULES_PATH : str.
Variable prebundle : PrebundleArgs -> Result (gmap str str).
Variable JSON_stringify : gmap str str -> str.
Variable SourceMap : Type.
Variable load : str -> option Loaded.
Variable transform : str -> str -> str -> option (Transformed SourceMap).
Variable genSourceMapString : SourceMap -> str.

Local Abbreviation onResolved :=
  (onResolved cwd root isNodeModule WEB_MODULES_PATH prebundle JSON_stringify).
Local Abbreviation prebundleArgs := (prebundleArgs cwd root WEB_MODULES_PATH).
Local Abbreviation pluginsMiddleware :=
  (pluginsMiddleware cwd root SourceMap load transform genSourceMapString).

Lemma truthy_Some v : truthy v = true -> exists s, v = Some s /\ s <> Str [].
Proof. destruct v as [[[|a s]|name]|]; try done; intros _; by eexists. Qed.

(** X10. A request answered with a bundle is answered from the bundle map from
    then on: the same request made again gives the same answer, leaves
    the state as it is and so does not invoke the pre-bundler. *)
Theorem onResolved_cached st st' resolvedPath bundle :
  onResolved st resolvedPath = (st', Ok (Some bundle)) ->
  onResolved st' resolvedPath = (st', Ok (Some bundle)).
Proof.
  unfold Server.onResolved, onResolved_start.
  destruct (isNodeModule resolvedPath); simpl; [|done].
  set (rel := slash (relative cwd root resolvedPath)).
  destruct (truthy (bundled st rel)) eqn:E.
  - intros [= <- Hb]. by rewrite E, Hb.
  - unfold onResolved_resume.
    destruct (prebundle (prebundleArgs st)) as [bm|e]; [|done].
    destruct (truthy (Object_get bm rel)) eqn:E2; simpl; [|done].
    intros [= <- Hb]. unfold bundled. simpl. by rewrite E2, Hb.
Qed.

(** X11. An import that is not a node module is left alone, and only such an
    import: [onResolved] returns [undefined] exactly for the paths that
    [isNodeModule] rejects, and what it returns is never the empty
    string. *)
Theorem onResolved_undefined_iff st resolvedPath :
  ((onResolved st resolvedPath).2 = Ok None <-> isNodeModule resolvedPath = false)
  /\ (forall bundle,
        (onResolved st resolvedPath).2 = Ok (Some bundle) -> bundle <> Str []).
Proof.
  unfold Server.onResolved, onResolved_start.
  destruct (isNodeModule resolvedPath); simpl; [|split; [done|by intros]].
  set (rel := slash (relative cwd root resolvedPath)).
  destruct (truthy (bundled st rel)) eqn:E.
  - apply truthy_Some in E as (s & -> & Hs). simpl.
    split; [done|]. by intros ? [= <-].
  - unfold onResolved_resume.
    destruct (prebundle (prebundleArgs st)) as [bm|e]; [|by split].
    destruct (truthy (Object_get bm rel)) eqn:E2; simpl; [|by split].
    apply truthy_Some in E2 as (s & -> & Hs).
    split; [done|]. by intros ? [= <-].
Qed.

Lemma includes_app_l s p : includes (p ++ s) p = true.
Proof.
  destruct p as [|a p]; [by destruct s|]. simpl.
  rewrite bool_decide_eq_true_2 by done. simpl.
  assert (forall q t, startsWith (q ++ t) q = true) as H.
  { induction q as [|x q IH]; intros t; [done|]. simpl.
    by rewrite bool_decide_eq_true_2, IH. }
  by rewrite H.
Qed.

Lemma includes_app_r s t p : includes t p = true -> includes (s ++ t) p = true.
Proof.
  intros H. induction s as [|a s IH]; [done|].
  simpl. rewrite IH. apply orb_true_r.
Qed.

(** X12. When the pre-bundler succeeds and reading the import in its bundle
    map gives nothing, or the empty string (the relative path of the
    import is not a key of the map, nor the name of a property that the
    map inherits from [Object.prototype]), [onResolved] throws an error
    whose message contains the relative path of the import; the bundle
    map has been replaced by the new one all the same. *)
Theorem onResolved_missing_bundle st resolvedPath bm :
  isNodeModule resolvedPath = true ->
  truthy (bundled st (slash (relative cwd root resolvedPath))) = false ->
  prebundle (prebundleArgs st) = Ok bm ->
  truthy (Object_get bm (slash (relative cwd root resolvedPath))) = false ->
  bundleMap (onResolved st resolvedPath).1 = Some bm
  /\ exists message,
       (onResolved st resolvedPath).2 = Thrown message
       /\ includes message (slash (relative cwd root resolvedPath)) = true.
Proof.
  intros H1 H2 H3 H4. unfold Server.onResolved.
  rewrite (onResolved_start_unbundled cwd root isNodeModule WEB_MODULES_PATH)
    by done.
  unfold onResolved_resume. rewrite H3, H4. cbn [negb fst snd].
  split; [done|]. eexists. split; [done|].
  apply includes_app_r, includes_app_l.
Qed.

(** X13. With an absolute root every entry point handed to the pre-bundler,
    and the destination directory, is an absolute path. *)
Theorem prebundleArgs_absolute st :
  isAbsolute root = true ->
  Forall (fun p => isAbsolute p = true) (entryPoints (prebundleArgs st))
  /\ isAbsolute (dest (prebundleArgs st)) = true.
Proof.
  intros Hr. split; [|by apply resolve_root_absolute].
  simpl. apply Forall_map, Forall_forall. intros x _.
  by apply resolve_root_absolute.
Qed.


End ServerFurther.

Section ServerFurtherExamples.
Import JsString Path Convertors Server.

Lemma onResolved_cached_witness :
  resolve_with foo_prebundle
    (resolve_with foo_prebundle initial (js "/r/node_modules/foo/index.js")).1
    (js "/r/node_modules/foo/index.js")
  = ((resolve_with foo_prebundle initial (js "/r/node_modules/foo/index.js")).1,
     Ok (Some (Str (js "web_modules/foo.js")))).
Proof.
  apply (onResolved_cached (js "/") (js "/r") in_node_modules (js "web_modules")
           foo_prebundle (fun _ => js "{}") initial).
  reflexivity.
Defined.

Lemma onResolved_undefined_iff_witness :
  (resolve_with foo_prebundle initial (js "/r/src/main.js")).2 = Ok None.
Proof.
  apply (proj1 (onResolved_undefined_iff (js "/") (js "/r") in_node_modules
                  (js "web_modules") foo_prebundle (fun _ => js "{}") initial
                  (js "/r/src/main.js"))).
  reflexivity.
Defined.

Lemma onResolved_missing_bundle_witness :
  bundleMap (resolve_with foo_prebundle initial (js "/r/node_modules/bar/index.js")).1
  = Some {[ js "node_modules/foo/index.js" := js "web_modules/foo.js" ]}
  /\ exists message,
       (resolve_with foo_prebundle initial (js "/r/node_modules/bar/index.js")).2
       = Thrown message
       /\ includes message
            (slash (relative (js "/") (js "/r") (js "/r/node_modules/bar/index.js")))
          = true.
Proof.
  apply (onResolved_missing_bundle (js "/") (js "/r") in_node_modules
           (js "web_modules") foo_prebundle (fun _ => js "{}") initial
           (js "/r/node_modules/bar/index.js")); reflexivity.
Defined.

Lemma prebundleArgs_absolute_witness :
  Forall (fun p => isAbsolute p = true)
    (entryPoints
       (prebundleArgs (js "/") (js "/r") (js "web_modules")
          (set_nodes (fun _ => {[ js "src/main.js" := newNode ]}) initial)))
  /\ isAbsolute
       (dest (prebundleArgs (js "/") (js "/r") (js "web_modules")
                (set_nodes (fun _ => {[ js "src/main.js" := newNode ]}) initial)))
     = true.
Proof. apply prebundleArgs_absolute. reflexivity. Defined.


End ServerFurtherExamples.

(** ** The HMR channel *)

Section HmrFurther.
Import JsString Path Convertors Server.

Variables cwd root : str.
Variable HMR_SERVER_NAME : str.

Local Abbreviation handle := (handle cwd root HMR_SERVER_NAME).
Local Abbreviation run := (run cwd root HMR_SERVER_NAME).
Local Abbreviation accepted_ids := (accepted HMR_SERVER_NAME).

Lemma listeners_of_messages (ids : list nat) e event :
  (e, event) <> (Wss, js "message") ->
  omap (fun r : Emitter * str * Listener =>
          if bool_decide (r.1 = (e, event)) then Some r.2 else None)
       (map (fun _ => (Wss, js "message", MessageListener)) ids) = [].
Proof.
  intros Hne. induction ids as [|i ids IH]; [done|]. simpl.
  by rewrite bool_decide_eq_false_2.
Qed.

Lemma handle_table ids st ev :
  table_after ids st -> table_after (ids ++ accepted_ids [ev]) (handle st ev).
Proof.
  intros [Hl Hs]. destruct ev as [protocol id|id data]; simpl.
  - case_bool_decide; [|by rewrite app_nil_r]. simpl.
    unfold emit, listeners_of. rewrite Hl.
    rewrite omap_app, listeners_of_messages by done. simpl.
    split; simpl.
    + rewrite Hl, map_app. done.
    + rewrite Hs, map_app. done.
  - rewrite app_nil_r. unfold emit, listeners_of. rewrite Hl.
    rewrite omap_app, listeners_of_messages by done. done.
Qed.

Lemma run_table evs ids st :
  table_after ids st -> table_after (ids ++ accepted_ids evs) (run st evs).
Proof.
  revert ids st. induction evs as [|ev evs IH]; intros ids st Hst.
  - by rewrite app_nil_r.
  - change (run st (ev :: evs)) with (run (handle st ev) evs).
    apply (handle_table _ _ ev) in Hst. apply IH in Hst.
    rewrite <- app_assoc in Hst.
    by replace (accepted_ids [ev] ++ accepted_ids evs) with (accepted_ids (ev :: evs)) in Hst
      by (unfold accepted; simpl; by destruct ev as [? ?|? ?]; [case_bool_decide|]).
Qed.

(** X14. Every upgrade request that names the HMR protocol is answered with
    one ['connected'] message on its socket, in the order of the requests,
    and leaves one more ['message'] listener on the server object; other
    upgrade requests and the messages of clients leave the messages sent
    and the listeners as they are. *)
Theorem connections_are_greeted evs :
  sent (run (hmr_install initial) evs) = map (fun id => (id, Connected)) (accepted_ids evs)
  /\ listeners_of Wss (js "message") (run (hmr_install initial) evs)
     = map (fun _ => MessageListener) (accepted_ids evs).
Proof.
  destruct (run_table evs [] (hmr_install initial)) as [Hl Hs]; [done|].
  rewrite app_nil_l in Hl, Hs. split; [done|].
  unfold listeners_of. rewrite Hl, omap_app.
  cbn [omap list_omap]. rewrite !bool_decide_eq_false_2 by done.
  rewrite app_nil_l. clear Hl Hs.
  induction (accepted_ids evs) as [|i ids IH]; [done|].
  cbn [map omap list_omap]. rewrite bool_decide_eq_true_2 by done.
  cbn [snd]. f_equal. exact IH.
Qed.

End HmrFurther.

(** ** The bundle map, the statistics and the environment replacements *)

Section ResultFacts.

Lemma map_result_total {A B} (f : A -> Result B) (l : list A) :
  (forall a, a ∈ l -> exists b, f a = Ok b) ->
  exists bs, map_result f l = Ok bs
             /\ forall b, b ∈ bs <-> exists a, a ∈ l /\ f a = Ok b.
Proof.
  induction l as [|a l IH]; intros H.
  - exists []. split; [done|]. intros b. split; [set_solver|].
    intros (a & Ha & _). set_solver.
  - destruct (H a) as [b Hb]; [set_solver|].
    destruct IH as (bs & Hbs & Hspec); [intros; apply H; set_solver|].
    exists (b :: bs). split; [simpl; by rewrite Hb, Hbs|].
    intros b'. rewrite elem_of_cons, Hspec. split.
    + intros [->|(a' & Ha' & Hf)]; [exists a; set_solver|exists a'; set_solver].
    + intros (a' & [->|Ha']%elem_of_cons & Hf).
      * left. rewrite Hb in Hf. by injection Hf.
      * right. by exists a'.
Qed.

Lemma get_keys {V} (o : list (str * V)) k :
  k ∈ JsObject.keys o <-> is_Some (JsObject.get o k).
Proof.
  unfold JsObject.keys. induction o as [|[k' v] o IH]; simpl.
  - split; [set_solver|by intros [? ?]].
  - rewrite elem_of_cons, IH. case_bool_decide; subst.
    + split; [by eexists|by left].
    + split; [by intros [?|?]|by right].
Qed.

Lemma resolve_nonempty cwd args : Path.resolve cwd args <> [].
Proof.
  unfold Path.resolve.
  destruct (Path.resolve_loop (rev args ++ [cwd]) []) as [[|] rp]; [done|].
  by case_bool_decide.
Qed.

End ResultFacts.

Section MetafileFacts.
Import JsString Path Metafile.

Variable osAgnosticPath : str -> str -> str.
Variable cwd : str.
Variable type_error : str.

Local Abbreviation bundleMap_entry := (bundleMap_entry osAgnosticPath cwd type_error).
Local Abbreviation metafileToBundleMap :=
  (metafileToBundleMap osAgnosticPath cwd type_error).
Local Abbreviation bundle_origin := (bundle_origin osAgnosticPath cwd).
Local Abbreviation stat_of := (stat_of type_error).
Local Abbreviation metafileToStats := (metafileToStats cwd type_error).

Lemma bundleMap_entry_total inputFiles outputs root esbuildCwd output :
  output ∈ JsObject.keys outputs ->
  exists e, bundleMap_entry inputFiles outputs root esbuildCwd output = Ok e.
Proof.
  intros [info Hinfo]%get_keys. unfold Metafile.bundleMap_entry. rewrite Hinfo.
  destruct (startsWith (basename output) (js "chunk.")); [by eexists|].
  destruct (find _ _) as [input|]; [|by eexists].
  destruct (negb (Server.truthy (Some (Str input)))); by eexists.
Qed.

Lemma bundleMap_entry_origin entryPoints outputs root esbuildCwd output k v :
  bundleMap_entry
    (list_to_set (map (fun x => resolve cwd [root; x]) entryPoints))
    outputs root esbuildCwd output = Ok (Some (k, v)) ->
  bundle_origin entryPoints outputs root esbuildCwd k v.
Proof.
  unfold Metafile.bundleMap_entry.
  destruct (startsWith (basename output) (js "chunk.")) eqn:E1; [done|].
  destruct (JsObject.get outputs output) as [info|] eqn:E2; [|done].
  destruct (find _ _) as [input|] eqn:E3; [|done].
  destruct (negb (Server.truthy (Some (Str input)))); [done|].
  intros [= <- <-].
  apply find_some in E3 as [Hin Hmem].
  apply in_map_iff in Hin as (x & <- & Hx).
  apply bool_decide_eq_true in Hmem.
  apply elem_of_list_to_set, list_elem_of_In, in_map_iff in Hmem
    as (entry & Hentry & Hin).
  exists output, info, x, entry.
  rewrite Hentry. repeat split; try done; by apply list_elem_of_In.
Qed.

Lemma metafileToBundleMap_origin entryPoints outputs root esbuildCwd :
  exists bundleMap,
    metafileToBundleMap entryPoints outputs root esbuildCwd = Ok bundleMap
    /\ forall k v, bundleMap !! k = Some v ->
                   bundle_origin entryPoints outputs root esbuildCwd k v.
Proof.
  unfold Metafile.metafileToBundleMap.
  destruct (map_result_total
              (bundleMap_entry
                 (list_to_set (map (fun x => resolve cwd [root; x]) entryPoints))
                 outputs root esbuildCwd) (JsObject.keys outputs))
    as (maps & -> & Hmaps).
  { intros. by apply bundleMap_entry_total. }
  simpl. eexists. split; [done|]. intros k v Hkv%fromEntries_lookup.
  apply list_elem_of_omap in Hkv as (e & He & Hid). simpl in Hid. subst e.
  apply Hmaps in He as (output & _ & He).
  exact (bundleMap_entry_origin _ _ _ _ _ _ _ He).
Qed.

(** X15. The bundle map is always produced, and each of its entries sends an
    entry point to an output that is not a chunk and has that entry point
    among its inputs: the key is the key of the entry point, the value
    the key of the output. *)
Theorem metafileToBundleMap_sound entryPoints outputs root esbuildCwd :
  exists bundleMap,
    metafileToBundleMap entryPoints outputs root esbuildCwd = Ok bundleMap
    /\ forall k v,
         bundleMap !! k = Some v ->
         exists output info input entry,
           JsObject.get outputs output = Some info
           /\ startsWith (basename output) (js "chunk.") = false
           /\ input ∈ JsObject.keys (inputs info)
           /\ entry ∈ entryPoints
           /\ resolve cwd [esbuildCwd; input] = resolve cwd [root; entry]
           /\ k = osAgnosticPath (resolve cwd [root; entry]) root
           /\ v = osAgnosticPath (resolve cwd [esbuildCwd; output]) root.
Proof. apply metafileToBundleMap_origin. Qed.

(** X16. Without entry points the bundle map is empty, whatever the
    metafile. *)
Theorem metafileToBundleMap_no_entry_points outputs root esbuildCwd :
  metafileToBundleMap [] outputs root esbuildCwd = Ok ∅.
Proof.
  destruct (metafileToBundleMap_origin [] outputs root esbuildCwd)
    as (bm & -> & Hbm).
  f_equal. apply map_eq. intros k. rewrite lookup_empty.
  destruct (bm !! k) as [v|] eqn:E; [|done].
  apply Hbm in E as (? & ? & ? & entry & _ & _ & _ & Hin & _). set_solver.
Qed.

(** X17. When no entry point has the key [__proto__], an output that is not
    a chunk and has an entry point among its inputs is in the bundle
    map: the key of one of the entry points among its inputs is a key of
    the map. *)
Theorem metafileToBundleMap_complete entryPoints outputs root esbuildCwd
    bundleMap output info input entry :
  (forall e, e ∈ entryPoints ->
             osAgnosticPath (resolve cwd [root; e]) root <> proto_name) ->
  metafileToBundleMap entryPoints outputs root esbuildCwd = Ok bundleMap ->
  JsObject.get outputs output = Some info ->
  startsWith (basename output) (js "chunk.") = false ->
  input ∈ JsObject.keys (inputs info) ->
  entry ∈ entryPoints ->
  resolve cwd [esbuildCwd; input] = resolve cwd [root; entry] ->
  exists input' entry',
    input' ∈ JsObject.keys (inputs info)
    /\ entry' ∈ entryPoints
    /\ resolve cwd [esbuildCwd; input'] = resolve cwd [root; entry']
    /\ is_Some (bundleMap !! osAgnosticPath (resolve cwd [root; entry']) root).
Proof.
  unfold Metafile.metafileToBundleMap.
  set (inputFiles := list_to_set (map (fun x => resolve cwd [root; x]) entryPoints)
                     : gset str).
  destruct (map_result_total
              (bundleMap_entry inputFiles outputs root esbuildCwd)
              (JsObject.keys outputs))
    as (maps & -> & Hmaps).
  { intros. by apply bundleMap_entry_total. }
  cbn [bind_result]. intros Hproto [= <-] Hinfo Hchunk Hinput Hentry Hres.
  destruct (find (fun x => bool_decide (x ∈ inputFiles))
              (map (fun x => resolve cwd [esbuildCwd; x]) (JsObject.keys (inputs info))))
    as [found|] eqn:Hfind.
  - pose proof Hfind as Hfind'.
    apply find_some in Hfind' as [Hin Hmem].
    apply in_map_iff in Hin as (input' & <- & Hin').
    apply bool_decide_eq_true in Hmem.
    apply elem_of_list_to_set, list_elem_of_In, in_map_iff in Hmem
      as (entry' & Hentry' & Hin'').
    exists input', entry'.
    split; [by apply list_elem_of_In|]. split; [by apply list_elem_of_In|].
    split; [done|].
    apply (fromEntries_is_Some _ _
             (osAgnosticPath (resolve cwd [esbuildCwd; output]) root)).
    { apply Hproto. by apply list_elem_of_In. }
    apply list_elem_of_omap.
    exists (Some (osAgnosticPath (resolve cwd [root; entry']) root,
                  osAgnosticPath (resolve cwd [esbuildCwd; output]) root)).
    split; [|done]. apply Hmaps. exists output. split.
    + apply get_keys. by eexists.
    + unfold Metafile.bundleMap_entry. rewrite Hchunk, Hinfo. fold inputFiles.
      rewrite Hfind.
      pose proof (resolve_nonempty cwd [esbuildCwd; input']) as Hne.
      destruct (resolve cwd [esbuildCwd; input']) as [|a t] eqn:Er; [done|].
      simpl. by rewrite <- Hentry'.
  - exfalso.
    assert (bool_decide (resolve cwd [esbuildCwd; input] ∈ inputFiles) = false) as Hf.
    { apply (find_none _ _ Hfind).
      apply (in_map (fun x => resolve cwd [esbuildCwd; x])).
      by apply list_elem_of_In. }
    apply bool_decide_eq_false in Hf. apply Hf. rewrite Hres.
    apply elem_of_list_to_set, list_elem_of_In.
    apply (in_map (fun x => resolve cwd [root; x])).
    by apply list_elem_of_In.
Qed.

End MetafileFacts.

Section StatsFacts.
Import JsString Path Metafile.

Variable cwd : str.
Variable type_error : str.

Local Abbreviation stat_of := (stat_of type_error).
Local Abbreviation metafileToStats := (metafileToStats cwd type_error).

Lemma stat_of_total outputs output :
  output ∈ JsObject.keys outputs -> exists s, stat_of outputs output = Ok s.
Proof.
  intros [value Hv]%get_keys. unfold Metafile.stat_of. rewrite Hv. by eexists.
Qed.

Lemma stat_of_spec outputs output s :
  stat_of outputs output = Ok s ->
  exists value,
    JsObject.get outputs output = Some value
    /\ stat_path s = output
    /\ isCommon s = startsWith (basename output) (js "chunk.")
    /\ stat_bytes s = bytes value.
Proof.
  unfold Metafile.stat_of. destruct (JsObject.get outputs output) as [value|]; [|done].
  intros [= <-]. exists value. simpl. by rewrite orb_false_r.
Qed.

Lemma assign_all_fromEntries {V} (objects : list (str * V)) :
  assign_all objects = fromEntries objects.
Proof. reflexivity. Qed.

Lemma elem_of_filter_list {A} (f : A -> bool) (l : list A) x :
  x ∈ List.filter f l <-> x ∈ l /\ f x = true.
Proof. rewrite !list_elem_of_In. apply filter_In. Qed.

(** X18. The statistics are always produced. Every entry of [common] is the
    relative path and the size of an output whose basename starts with
    ['chunk.'], every entry of [direct] those of an output whose basename
    does not; every output whose relative path is not [__proto__] has
    that path in the map of its kind, and neither map has the key
    [__proto__]. *)
Theorem metafileToStats_classifies outputs destLoc :
  exists stats,
    metafileToStats outputs destLoc = Ok stats
    /\ (forall k size,
          common stats !! k = Some size ->
          exists output value,
            JsObject.get outputs output = Some value
            /\ startsWith (basename output) (js "chunk.") = true
            /\ k = slash (relative cwd destLoc output)
            /\ size = bytes value)
    /\ (forall k size,
          direct stats !! k = Some size ->
          exists output value,
            JsObject.get outputs output = Some value
            /\ startsWith (basename output) (js "chunk.") = false
            /\ k = slash (relative cwd destLoc output)
            /\ size = bytes value)
    /\ (forall output value,
          JsObject.get outputs output = Some value ->
          slash (relative cwd destLoc output) <> proto_name ->
          if startsWith (basename output) (js "chunk.")
          then is_Some (common stats !! slash (relative cwd destLoc output))
          else is_Some (direct stats !! slash (relative cwd destLoc output)))
    /\ common stats !! proto_name = None
    /\ direct stats !! proto_name = None.
Proof.
  unfold Metafile.metafileToStats.
  destruct (map_result_total (stat_of outputs) (JsObject.keys outputs))
    as (stats & -> & Hstats).
  { intros. by apply stat_of_total. }
  cbn [bind_result]. eexists. split; [done|]. cbn [common direct].
  rewrite !assign_all_fromEntries.
  split; [|split; [|split; [|split; apply fromEntries_proto]]].
  - intros k size Hk%fromEntries_lookup.
    apply list_elem_of_fmap in Hk as (s & Hs & Hin).
    apply elem_of_filter_list in Hin as [Hin Hc].
    apply Hstats in Hin as (output & _ & Hout).
    apply stat_of_spec in Hout as (value & Hv & Hp & Hi & Hb).
    exists output, value. unfold makeStatObject in Hs. injection Hs as -> ->.
    rewrite Hp, Hb, <- Hi. done.
  - intros k size Hk%fromEntries_lookup.
    apply list_elem_of_fmap in Hk as (s & Hs & Hin).
    apply elem_of_filter_list in Hin as [Hin Hc].
    apply Hstats in Hin as (output & _ & Hout).
    apply stat_of_spec in Hout as (value & Hv & Hp & Hi & Hb).
    exists output, value. unfold makeStatObject in Hs. injection Hs as -> ->.
    rewrite Hp, Hb, <- Hi. by apply negb_true_iff in Hc.
  - intros output value Hv Hproto.
    destruct (stat_of_total outputs output) as [s Hs]; [apply get_keys; by eexists|].
    pose proof Hs as Hs'.
    apply stat_of_spec in Hs' as (value' & Hv' & Hp & Hi & Hb).
    assert (s ∈ stats) as Hin.
    { apply Hstats. exists output. split; [apply get_keys; by eexists|done]. }
    destruct (startsWith (basename output) (js "chunk.")) eqn:E.
    + apply (fromEntries_is_Some _ _ (stat_bytes s)); [done|].
      apply list_elem_of_fmap. exists s. split.
      * unfold makeStatObject. by rewrite Hp.
      * apply elem_of_filter_list. by rewrite Hi.
    + apply (fromEntries_is_Some _ _ (stat_bytes s)); [done|].
      apply list_elem_of_fmap. exists s. split.
      * unfold makeStatObject. by rewrite Hp.
      * apply elem_of_filter_list. by rewrite Hi.
Qed.

End StatsFacts.

Section EnvFacts.
Import JsString Path Metafile.

Variable Value : Type.
Variable JSON_stringify : Value -> str.

Local Abbreviation env_step := (env_step Value JSON_stringify).
Local Abbreviation generateEnvReplacements :=
  (generateEnvReplacements Value JSON_stringify).
Local Abbreviation esbuild_define := (esbuild_define Value JSON_stringify).

Lemma env_fold_lookup (env : gmap str Value) keys acc key :
  (forall k, k ∈ keys -> is_Some (env !! k)) ->
  fold_left (env_step env) keys acc !! (js "process.env." ++ key)
  = if bool_decide (key ∈ keys) then JSON_stringify <$> env !! key
    else acc !! (js "process.env." ++ key).
Proof.
  revert acc. induction keys as [|k keys IH]; intros acc Hk; [done|].
  cbn [fold_left]. rewrite IH by (intros; apply Hk; set_solver).
  destruct (Hk k) as [v Hv]; [set_solver|].
  unfold Metafile.env_step. rewrite Hv.
  destruct (decide (key = k)) as [->|Hne].
  - rewrite lookup_insert_eq, Hv.
    rewrite (bool_decide_eq_true_2 (k ∈ k :: keys)) by set_solver.
    by case_bool_decide.
  - rewrite lookup_insert_ne by (intros E%app_inv_head; done).
    case_bool_decide; [by rewrite bool_decide_eq_true_2 by set_solver|].
    by rewrite bool_decide_eq_false_2 by set_solver.
Qed.

Lemma env_fold_keys (env : gmap str Value) keys acc k v :
  fold_left (env_step env) keys acc !! k = Some v ->
  acc !! k = Some v \/ exists key, k = js "process.env." ++ key.
Proof.
  revert acc. induction keys as [|k' keys IH]; intros acc; [by left|].
  cbn [fold_left]. intros [Hk|?]%IH; [|by right].
  unfold Metafile.env_step in Hk. destruct (env !! k') as [v'|]; [|by left].
  destruct (decide (js "process.env." ++ k' = k)) as [<-|Hne].
  - right. by eexists.
  - rewrite lookup_insert_ne in Hk by done. by left.
Qed.

(** X19. The replacements hold, for each variable [key] of [env], the entry
    ['process.env.' + key] with the JSON text of its value, and nothing
    else. *)
Theorem generateEnvReplacements_lookup (env : gmap str Value) :
  (forall key,
     generateEnvReplacements env !! (js "process.env." ++ key)
     = JSON_stringify <$> env !! key)
  /\ (forall k v,
        generateEnvReplacements env !! k = Some v ->
        exists key, k = js "process.env." ++ key).
Proof.
  split.
  - intros key. unfold Metafile.generateEnvReplacements.
    rewrite env_fold_lookup by (by intros k ?%elem_of_Object_keys).
    case_bool_decide as E.
    + done.
    + rewrite lookup_empty. destruct (env !! key) eqn:Ek; [|done].
      exfalso. apply E, elem_of_Object_keys. by eexists.
  - intros k v [Hk|?]%env_fold_keys; [|done]. by rewrite lookup_empty in Hk.
Qed.

(** X20. In the [define] option the variable [global] is always ['window'],
    whatever the environment, and ['process.env.NODE_ENV'] is the JSON
    text of the [NODE_ENV] of the environment when it has one and of
    ['dev'] otherwise. *)
Theorem esbuild_define_spec (dev : Value) (env : gmap str Value) :
  esbuild_define dev env !! js "global" = Some (js "window")
  /\ esbuild_define dev env !! js "process.env.NODE_ENV"
     = Some (JSON_stringify (default dev (env !! js "NODE_ENV"))).
Proof.
  unfold Metafile.esbuild_define. split.
  - rewrite lookup_union_r.
    + rewrite lookup_insert_ne by done. by rewrite lookup_singleton_eq.
    + destruct (generateEnvReplacements env !! js "global") as [v|] eqn:E; [|done].
      apply env_fold_keys in E as [E|[key E]]; [by rewrite lookup_empty in E|].
      discriminate.
  - pose proof (env_fold_lookup env (Object_keys env) ∅ (js "NODE_ENV")) as H.
    change (js "process.env." ++ js "NODE_ENV") with (js "process.env.NODE_ENV") in H.
    destruct (env !! js "NODE_ENV") as [v|] eqn:Ev.
    + apply lookup_union_Some_l. unfold Metafile.generateEnvReplacements.
      rewrite H by (by intros k ?%elem_of_Object_keys).
      rewrite bool_decide_eq_true_2; [done|].
      apply elem_of_Object_keys. by eexists.
    + rewrite lookup_union_r.
      * by rewrite lookup_insert_eq.
      * unfold Metafile.generateEnvReplacements.
        rewrite H by (by intros k ?%elem_of_Object_keys).
        by case_bool_decide.
Qed.

End EnvFacts.

Section MetafileExamples.
Import JsString Path Metafile.

Lemma metafileToBundleMap_complete_witness :
  exists input' entry',
    input' ∈ JsObject.keys
               [(js "node_modules/foo/lib/util.js", 20%N);
                (js "node_modules/foo/index.js", 100%N)]
    /\ entry' ∈ sample_entryPoints
    /\ resolve (js "/") [js "/r"; input'] = resolve (js "/") [js "/r"; entry']
    /\ is_Some (({[ js "node_modules/foo/index.js" := js "web_modules/foo.js";
                    js "node_modules/bar/index.js" := js "web_modules/bar.js" ]}
                   : gmap str str)
                  !! sample_key (resolve (js "/") [js "/r"; entry']) (js "/r")).
Proof.
  apply (metafileToBundleMap_complete sample_key (js "/") (js "TypeError")
           sample_entryPoints sample_outputs (js "/r") (js "/r") _
           (js "web_modules/foo.js")
           {| bytes := 120;
              inputs := [(js "node_modules/foo/lib/util.js", 20%N);
                         (js "node_modules/foo/index.js", 100%N)];
              exports := Some [js "default"] |}
           (js "node_modules/foo/index.js") (js "node_modules/foo/index.js"));
    try reflexivity.
  - intros e He. apply list_elem_of_In in He. vm_compute in He.
    destruct He as [<-|[<-|[]]]; vm_compute; discriminate.
  - vm_compute. set_solver.
  - vm_compute. set_solver.
Defined.

(** On the sample the two entry points are sent to their outputs, and
    the chunk is counted apart. *)
Example metafileToBundleMap_sample :
  metafileToBundleMap sample_key (js "/") (js "TypeError")
    sample_entryPoints sample_outputs (js "/r") (js "/r")
  = Ok {[ js "node_modules/foo/index.js" := js "web_modules/foo.js";
          js "node_modules/bar/index.js" := js "web_modules/bar.js" ]}.
Proof. vm_compute. reflexivity. Qed.

Example metafileToStats_sample :
  metafileToStats (js "/") (js "TypeError") sample_outputs (js "web_modules")
  = Ok {| common := {[ js "chunk.AB12.js" := 40%N ]};
          direct := {[ js "foo.js" := 120%N; js "bar.js" := 300%N ]} |}.
Proof. vm_compute. reflexivity. Qed.

End MetafileExamples.
